(** * Bootstrap-embedding optimisation driver (quemb.molbe._opt)

    A shallow embedding of [BEOPT] (src/src/quemb/molbe/_opt.py): the
    objective function [objfunc], the serial/parallel evaluation dispatch it
    performs, and the quasi-Newton reporting loop [optimize].

    Python floats are IEEE binary64 numbers, modelled by Rocq's primitive
    floats; Python ints are unbounded, modelled by [Z].  The object [self] is
    a record threaded through a small state-and-exception monad that also
    records what the run prints and which external routines it calls. *)

From Stdlib Require Import ZArith List String Bool Lia PrimFloat.
From Stdlib Require Floats.
From stdpp Require Import base option list gmap strings.
Import ListNotations.

Set Warnings "-inexact-float".

Local Open Scope string_scope.
Local Open Scope list_scope.
Local Open Scope Z_scope.

(** ** Python exceptions and call outcomes *)

(** [sys.exit()] raises [SystemExit]; its payload is the optional exit
    code.  Every other exception is identified by its class name. *)
Inductive PyExn : Type :=
| SystemExit (code : option Z)
| PyError (cls : string).

Inductive Outcome (A : Type) : Type :=
| Returned (a : A)
| Raised (e : PyExn).
Arguments Returned {A} a.
Arguments Raised {A} e.

(** What the interpreter does with an outcome at top level: a normal return
    and a [SystemExit] without code (or with code [None]) give status 0, a
    [SystemExit] with an integer code gives that code, any other uncaught
    exception gives status 1. *)
Definition exit_status {A : Type} (o : Outcome A) : Z :=
  match o with
  | Returned _ => 0
  | Raised (SystemExit None) => 0
  | Raised (SystemExit (Some n)) => n
  | Raised (PyError _) => 1
  end.

(** ** Programs of the quasi-Newton driver

    The driver ([quemb.shared.external.optqn.FrankQN]) is an external
    collaborator.  All it is given is the bound method [self.objfunc], so a
    driver operation is a finite tree of calls to the objective function:
    it finishes with a value, raises, or evaluates the objective at a
    potential of its choice and goes on with the error vector it gets. *)
Inductive Prog (A : Type) : Type :=
| Done (a : A)
| Fail (e : PyExn)
| Eval (xk : list float) (k : list float -> Prog A).
Arguments Done {A} a.
Arguments Fail {A} e.
Arguments Eval {A} xk k.

(** A driver program that raises nothing of its own. *)
Fixpoint no_fail {A : Type} (p : Prog A) : Prop :=
  match p with
  | Done _ => True
  | Fail _ => False
  | Eval _ k => forall v, no_fail (k v)
  end.

(** ** Opaque payloads and the attributes of a [BEOPT] instance *)

(** Values that [BEOPT] only stores and forwards: the fragment objects, the
    Hartree-Fock effective potential, the values of the extra solver keyword
    arguments and the scratch location. *)
Class Payload : Type := {
  FragPart : Type;
  Veff : Type;
  KwVal : Type;
  ScratchDir : Type
}.

Section Driver.
Context {PL : Payload}.

(** The attributes assigned by [BEOPT.__init__], in the order of the
    source. *)
Record BEOPT : Type := mkBEOPT {
  ebe_hf : float;
  hf_veff : option Veff;
  pot : list float;
  Fobjs : FragPart;
  Nocc : Z;
  enuc : float;
  solver : string;
  ecore : float;
  iter : Z;
  err : float;
  Ebe : float;
  max_space : Z;
  nproc : Z;
  ompnum : Z;
  only_chem : bool;
  conv_tol : float;
  relax_density : bool;
  hci_cutoff : float;
  ci_coeff_cutoff : option float;
  select_cutoff : option float;
  hci_pt : bool;
  solver_kwargs : gmap string KwVal;
  scratch_dir : option ScratchDir
}.

(** [BEOPT.__init__]: every argument is stored under its own name; [iter],
    [err] and [Ebe] start at [0], [0.0] and [0.0]. *)
Definition BEOPT__init__
    (pot_ : list float) (Fobjs_ : FragPart) (Nocc_ : Z) (enuc_ : float)
    (solver_ : string) (ecore_ : float) (nproc_ ompnum_ : Z)
    (only_chem_ : bool) (hf_veff_ : option Veff) (hci_pt_ : bool)
    (hci_cutoff_ : float) (ci_coeff_cutoff_ select_cutoff_ : option float)
    (max_space_ : Z) (conv_tol_ : float) (relax_density_ : bool)
    (ebe_hf_ : float) (scratch_dir_ : option ScratchDir)
    (solver_kwargs_ : gmap string KwVal) : BEOPT :=
  {| ebe_hf := ebe_hf_; hf_veff := hf_veff_; pot := pot_; Fobjs := Fobjs_;
     Nocc := Nocc_; enuc := enuc_; solver := solver_; ecore := ecore_;
     iter := 0; err := 0%float; Ebe := 0%float;
     max_space := max_space_; nproc := nproc_; ompnum := ompnum_;
     only_chem := only_chem_; conv_tol := conv_tol_;
     relax_density := relax_density_; hci_cutoff := hci_cutoff_;
     ci_coeff_cutoff := ci_coeff_cutoff_; select_cutoff := select_cutoff_;
     hci_pt := hci_pt_; solver_kwargs := solver_kwargs_;
     scratch_dir := scratch_dir_ |}.

(** The three attribute assignments the class performs after construction:
    [self.err = ...], [self.Ebe = ...] and [self.iter += 1]. *)
Definition set_err (v : float) (s : BEOPT) : BEOPT :=
  {| ebe_hf := ebe_hf s; hf_veff := hf_veff s; pot := pot s; Fobjs := Fobjs s;
     Nocc := Nocc s; enuc := enuc s; solver := solver s; ecore := ecore s;
     iter := iter s; err := v; Ebe := Ebe s;
     max_space := max_space s; nproc := nproc s; ompnum := ompnum s;
     only_chem := only_chem s; conv_tol := conv_tol s;
     relax_density := relax_density s; hci_cutoff := hci_cutoff s;
     ci_coeff_cutoff := ci_coeff_cutoff s; select_cutoff := select_cutoff s;
     hci_pt := hci_pt s; solver_kwargs := solver_kwargs s;
     scratch_dir := scratch_dir s |}.

Definition set_Ebe (v : float) (s : BEOPT) : BEOPT :=
  {| ebe_hf := ebe_hf s; hf_veff := hf_veff s; pot := pot s; Fobjs := Fobjs s;
     Nocc := Nocc s; enuc := enuc s; solver := solver s; ecore := ecore s;
     iter := iter s; err := err s; Ebe := v;
     max_space := max_space s; nproc := nproc s; ompnum := ompnum s;
     only_chem := only_chem s; conv_tol := conv_tol s;
     relax_density := relax_density s; hci_cutoff := hci_cutoff s;
     ci_coeff_cutoff := ci_coeff_cutoff s; select_cutoff := select_cutoff s;
     hci_pt := hci_pt s; solver_kwargs := solver_kwargs s;
     scratch_dir := scratch_dir s |}.

Definition set_iter (v : Z) (s : BEOPT) : BEOPT :=
  {| ebe_hf := ebe_hf s; hf_veff := hf_veff s; pot := pot s; Fobjs := Fobjs s;
     Nocc := Nocc s; enuc := enuc s; solver := solver s; ecore := ecore s;
     iter := v; err := err s; Ebe := Ebe s;
     max_space := max_space s; nproc := nproc s; ompnum := ompnum s;
     only_chem := only_chem s; conv_tol := conv_tol s;
     relax_density := relax_density s; hci_cutoff := hci_cutoff s;
     ci_coeff_cutoff := ci_coeff_cutoff s; select_cutoff := select_cutoff s;
     hci_pt := hci_pt s; solver_kwargs := solver_kwargs s;
     scratch_dir := scratch_dir s |}.

(** ** The calls made to the fragment-evaluation routines *)

(** Arguments of the call [be_func(xk, self.Fobjs, ..., **self.solver_kwargs)]
    of the serial branch, one field per argument of the call. *)
Record be_func_call : Type := mkSerial {
  sc_pot : list float;
  sc_Fobjs : FragPart;
  sc_Nocc : Z;
  sc_solver : string;
  sc_enuc : float;
  sc_eeval : bool;
  sc_return_vec : bool;
  sc_hf_veff : option Veff;
  sc_only_chem : bool;
  sc_hci_cutoff : float;
  sc_nproc : Z;
  sc_relax_density : bool;
  sc_ci_coeff_cutoff : option float;
  sc_select_cutoff : option float;
  sc_hci_pt : bool;
  sc_ecore : float;
  sc_ebe_hf : float;
  sc_be_iter : Z;
  sc_scratch_dir : option ScratchDir;
  sc_kwargs : gmap string KwVal
}.

(** Arguments of the call [be_func_parallel(xk, ..., **self.solver_kwargs)]
    of the parallel branch. *)
Record be_func_parallel_call : Type := mkParallel {
  pc_pot : list float;
  pc_Fobjs : FragPart;
  pc_Nocc : Z;
  pc_solver : string;
  pc_enuc : float;
  pc_eeval : bool;
  pc_return_vec : bool;
  pc_hf_veff : option Veff;
  pc_nproc : Z;
  pc_ompnum : Z;
  pc_only_chem : bool;
  pc_hci_cutoff : float;
  pc_relax_density : bool;
  pc_ci_coeff_cutoff : option float;
  pc_select_cutoff : option float;
  pc_ecore : float;
  pc_ebe_hf : float;
  pc_be_iter : Z;
  pc_scratch_dir : option ScratchDir;
  pc_kwargs : gmap string KwVal
}.

(** ** Observable events *)

(** What a run prints, and the calls it makes to its collaborators.  The
    numbers shown by [print] are kept as numbers, not as formatted text. *)
Inductive Event : Type :=
| Print (line : string)                  (* print("...") of a fixed text *)
| PrintSolver (name : string)            (* print("  Solver : ", self.solver) *)
| PrintIter (i : Z)                      (* print("-- In iter ", self.iter) *)
| PrintError (e : float)                 (* print("Error in density matching ...".format(self.err)) *)
| PrintBlank                             (* print() *)
| CallBeFunc (a : be_func_call)
| CallBeFuncParallel (a : be_func_parallel_call)
| CallFrankQN (x0 f0 : list float) (J0 : option (list (list float))) (max_space_ : Z)
| CallNextStep (trust_region : bool)
| NextStepReturned.

(** ** The state-and-exception monad of a method of [BEOPT] *)

Definition M (A : Type) : Type := BEOPT -> Outcome A * BEOPT * list Event.

Definition ret {A : Type} (a : A) : M A := fun s => (Returned a, s, []).

Definition bind {A B : Type} (m : M A) (k : A -> M B) : M B := fun s =>
  match m s with
  | (Returned a, s1, t1) =>
      match k a s1 with
      | (o, s2, t2) => (o, s2, t1 ++ t2)
      end
  | (Raised e, s1, t1) => (Raised e, s1, t1)
  end.

Definition raise {A : Type} (e : PyExn) : M A := fun s => (Raised e, s, []).
Definition emit (ev : Event) : M unit := fun s => (Returned tt, s, [ev]).
Definition attr {A : Type} (f : BEOPT -> A) : M A := fun s => (Returned (f s), s, []).
Definition assign (f : BEOPT -> BEOPT) : M unit := fun s => (Returned tt, f s, []).

Notation "x <- m ;; k" := (bind m (fun x => k))
  (at level 100, m at next level, right associativity).
Notation "m ;;; k" := (bind m (fun _ => k))
  (at level 100, right associativity).

(** ** External collaborators

    [be_func] (quemb.molbe.solver) and [be_func_parallel]
    (quemb.molbe.be_parallel) return the triple (scalar error, error vector,
    energy) or raise; an exception raised while the call is set up (a
    keyword of [solver_kwargs] given twice) counts as raised by the routine.
    [FrankQN] builds the driver object from the initial potential, the
    initial error vector, the optional initial Jacobian and [max_space];
    building it only stores its arguments.  [next_step] advances the driver:
    it may evaluate the objective function any number of times and does not
    catch what the objective function raises.  All of them are parameters
    of the development. *)
Class External : Type := {
  be_func : be_func_call -> Outcome (float * list float * float);
  be_func_parallel : be_func_parallel_call -> Outcome (float * list float * float);
  QN : Type;
  FrankQN : list float -> list float -> option (list (list float)) -> Z -> QN;
  next_step : QN -> bool -> Prog QN
}.

Context {EX : External}.

(** ** [BEOPT.objfunc] *)

(** The argument list of the serial call (lines 123-144). *)
Definition serial_call (xk : list float) (self : BEOPT) : be_func_call :=
  {| sc_pot := xk; sc_Fobjs := Fobjs self; sc_Nocc := Nocc self;
     sc_solver := solver self; sc_enuc := enuc self;
     sc_eeval := true; sc_return_vec := true;
     sc_hf_veff := hf_veff self; sc_only_chem := only_chem self;
     sc_hci_cutoff := hci_cutoff self; sc_nproc := ompnum self;
     sc_relax_density := relax_density self;
     sc_ci_coeff_cutoff := ci_coeff_cutoff self;
     sc_select_cutoff := select_cutoff self; sc_hci_pt := hci_pt self;
     sc_ecore := ecore self; sc_ebe_hf := ebe_hf self;
     sc_be_iter := iter self; sc_scratch_dir := scratch_dir self;
     sc_kwargs := solver_kwargs self |}.

(** The argument list of the parallel call (lines 146-167). *)
Definition parallel_call (xk : list float) (self : BEOPT) : be_func_parallel_call :=
  {| pc_pot := xk; pc_Fobjs := Fobjs self; pc_Nocc := Nocc self;
     pc_solver := solver self; pc_enuc := enuc self;
     pc_eeval := true; pc_return_vec := true;
     pc_hf_veff := hf_veff self; pc_nproc := nproc self;
     pc_ompnum := ompnum self; pc_only_chem := only_chem self;
     pc_hci_cutoff := hci_cutoff self;
     pc_relax_density := relax_density self;
     pc_ci_coeff_cutoff := ci_coeff_cutoff self;
     pc_select_cutoff := select_cutoff self;
     pc_ecore := ecore self; pc_ebe_hf := ebe_hf self;
     pc_be_iter := iter self; pc_scratch_dir := scratch_dir self;
     pc_kwargs := solver_kwargs self |}.

(** The evaluation dispatch: [if self.nproc == 1: be_func(...) else:
    be_func_parallel(...)].  An exception of the routine propagates. *)
Definition dispatch (xk : list float) : M (float * list float * float) :=
  fun self =>
    if nproc self =? 1
    then (be_func (serial_call xk self), self, [CallBeFunc (serial_call xk self)])
    else (be_func_parallel (parallel_call xk self), self,
          [CallBeFuncParallel (parallel_call xk self)]).

Definition objfunc (xk : list float) : M (list float) :=
  r <- dispatch xk ;;
  match r with
  | (err_, errvec_, ebe_) =>
      assign (set_err err_) ;;;
      assign (set_Ebe ebe_) ;;;
      ret errvec_
  end.

(** ** [BEOPT.optimize] *)

(** Running a driver program against [self.objfunc]. *)
Fixpoint run {A : Type} (p : Prog A) : M A :=
  match p with
  | Done a => ret a
  | Fail e => raise e
  | Eval xk k => bind (objfunc xk) (fun v => run (k v))
  end.

(** [optQN.next_step(trust_region=trust_region)]: the driver object is
    updated in place; the call and its return are recorded. *)
Definition call_next_step (optQN : QN) (trust_region : bool) : M QN :=
  emit (CallNextStep trust_region) ;;;
  q <- run (next_step optQN trust_region) ;;
  emit NextStepReturned ;;;
  ret q.

Definition converged_banner : list Event :=
  [PrintBlank; Print "CONVERGED"; PrintBlank].

(** The body of [for iter_ in range(self.max_space)] (lines 217-230), with
    the number of iterations that remain; [break] leaves the loop. *)
Fixpoint steps (n : nat) (optQN : QN) (trust_region : bool) : M unit :=
  match n with
  | O => ret tt
  | S n' =>
      i <- attr iter ;;
      emit (PrintIter i) ;;;
      optQN' <- call_next_step optQN trust_region ;;
      assign (fun self => set_iter (iter self + 1) self) ;;;
      e <- attr err ;;
      emit (PrintError e) ;;;
      emit PrintBlank ;;;
      tol <- attr conv_tol ;;
      if PrimFloat.ltb e tol
      then emit PrintBlank ;;; emit (Print "CONVERGED") ;;; emit PrintBlank
      else steps n' optQN' trust_region
  end.

Definition rule : string := "-----------------------------------------------------".

(** The lines printed on entry (lines 186-192). *)
Definition opening (self : BEOPT) : list Event :=
  [Print rule; Print "             Starting BE optimization "; PrintSolver (solver self)]
  ++ (if only_chem self then [Print "             Chemical Potential Optimization"] else [])
  ++ [Print rule; PrintBlank].

Definition unsupported_message : Event :=
  Print "This optimization method for BE is not supported".

Definition immediate_banner : list Event :=
  [PrintBlank; Print "CONVERGED w/o Optimization Steps"; PrintBlank].

Definition optimize (method : string) (J0 : option (list (list float)))
    (trust_region : bool) : M unit :=
  emit (Print rule) ;;;
  emit (Print "             Starting BE optimization ") ;;;
  name <- attr solver ;;
  emit (PrintSolver name) ;;;
  chem <- attr only_chem ;;
  (if chem then emit (Print "             Chemical Potential Optimization")
   else ret tt) ;;;
  emit (Print rule) ;;;
  emit PrintBlank ;;;
  if String.eqb method "QN" then
    i <- attr iter ;;
    emit (PrintIter i) ;;;
    p <- attr pot ;;
    f0 <- objfunc p ;;
    e <- attr err ;;
    emit (PrintError e) ;;;
    emit PrintBlank ;;;
    p' <- attr pot ;;
    ms <- attr max_space ;;
    emit (CallFrankQN p' f0 J0 ms) ;;;
    let optQN := FrankQN p' f0 J0 ms in
    e' <- attr err ;;
    tol <- attr conv_tol ;;
    if PrimFloat.ltb e' tol then
      emit PrintBlank ;;;
      emit (Print "CONVERGED w/o Optimization Steps") ;;;
      emit PrintBlank
    else
      ms' <- attr max_space ;;
      steps (Z.to_nat ms') optQN trust_region
  else
    emit (Print "This optimization method for BE is not supported") ;;;
    raise (SystemExit None).

(** ** Reading a run *)

Definition outcome_of {A : Type} (r : Outcome A * BEOPT * list Event) : Outcome A := fst (fst r).
Definition state_of {A : Type} (r : Outcome A * BEOPT * list Event) : BEOPT := snd (fst r).
Definition events_of {A : Type} (r : Outcome A * BEOPT * list Event) : list Event := snd r.

Definition is_next_step_call (ev : Event) : bool :=
  match ev with CallNextStep _ => true | _ => false end.

Definition is_next_step_return (ev : Event) : bool :=
  match ev with NextStepReturned => true | _ => false end.

Definition is_error_report (ev : Event) : bool :=
  match ev with PrintError _ => true | _ => false end.

(** Number of [next_step] calls started, and completed, in a trace. *)
Definition next_step_calls (t : list Event) : nat :=
  List.length (List.filter is_next_step_call t).

Definition completed_steps (t : list Event) : nat :=
  List.length (List.filter is_next_step_return t).

(** The scalar errors printed by the run, in order. *)
Fixpoint reported_errors (t : list Event) : list float :=
  match t with
  | [] => []
  | PrintError e :: t' => e :: reported_errors t'
  | _ :: t' => reported_errors t'
  end.

(** The value of [self.iter] an event shows: the printed iteration number,
    or the [be_iter] argument of an evaluation. *)
Definition observed_iter (ev : Event) : option Z :=
  match ev with
  | PrintIter i => Some i
  | CallBeFunc a => Some (sc_be_iter a)
  | CallBeFuncParallel a => Some (pc_be_iter a)
  | _ => None
  end.

(** [s1] is [s] up to the attributes [err] and [Ebe]. *)
Definition only_results_differ (s s1 : BEOPT) : Prop :=
  s1 = set_Ebe (Ebe s1) (set_err (err s1) s).

(** [s1] is [s] up to the attributes [iter], [err] and [Ebe]. *)
Definition same_settings (s s1 : BEOPT) : Prop :=
  s1 = set_iter (iter s1) (set_Ebe (Ebe s1) (set_err (err s1) s)).

(** An event that is a fragment evaluation labelled with iteration [i]. *)
Definition evaluation_at (i : Z) (ev : Event) : Prop :=
  match ev with
  | CallBeFunc a => sc_be_iter a = i
  | CallBeFuncParallel a => pc_be_iter a = i
  | _ => False
  end.

(** Every value of [self.iter] shown in the trace [t] is the value [i] at
    its start plus the number of [next_step] calls completed before. *)
Fixpoint iter_consistent (i : Z) (t : list Event) : Prop :=
  match t with
  | [] => True
  | ev :: t' =>
      match observed_iter ev with Some j => j = i | None => True end /\
      iter_consistent (if is_next_step_return ev then i + 1 else i) t'
  end.

(** The collaborators raise nothing: both evaluation routines return a
    triple and no driver step fails. *)
Definition collaborators_succeed : Prop :=
  (forall a, exists r, be_func a = Returned r) /\
  (forall a, exists r, be_func_parallel a = Returned r) /\
  (forall q b, no_fail (next_step q b)).

(** The runs of the reporting loop as a relation: with [n] iterations left
    and from state [s], the loop ends with an outcome, a state and a trace.
    Either no iteration is left; or the step raises (which takes a
    collaborator that raises); or the step returns and the error is below
    the tolerance; or it returns, the error is not below it, and the loop
    goes on.  Within a step only [err] and [Ebe] change and the events are
    evaluations labelled with the counter at the start of the step. *)
Inductive LoopRun (tr : bool) : nat -> BEOPT -> Outcome unit -> BEOPT -> list Event -> Prop :=
| loop_exhausted (s : BEOPT) :
    LoopRun tr 0 s (Returned tt) s []
| loop_raised (n : nat) (s s1 : BEOPT) (t : list Event) (x : PyExn) :
    only_results_differ s s1 ->
    Forall (evaluation_at (iter s)) t ->
    ~ collaborators_succeed ->
    LoopRun tr (S n) s (Raised x) s1 (PrintIter (iter s) :: CallNextStep tr :: t)
| loop_converged (n : nat) (s s1 : BEOPT) (t : list Event) :
    only_results_differ s s1 ->
    Forall (evaluation_at (iter s)) t ->
    PrimFloat.ltb (err s1) (conv_tol s1) = true ->
    LoopRun tr (S n) s (Returned tt) (set_iter (iter s1 + 1) s1)
      (PrintIter (iter s) :: CallNextStep tr :: t ++
       NextStepReturned :: PrintError (err s1) :: PrintBlank :: converged_banner)
| loop_continued (n : nat) (s s1 : BEOPT) (t : list Event)
    (o : Outcome unit) (s3 : BEOPT) (t' : list Event) :
    only_results_differ s s1 ->
    Forall (evaluation_at (iter s)) t ->
    PrimFloat.ltb (err s1) (conv_tol s1) = false ->
    LoopRun tr n (set_iter (iter s1 + 1) s1) o s3 t' ->
    LoopRun tr (S n) s o s3
      (PrintIter (iter s) :: CallNextStep tr :: t ++
       NextStepReturned :: PrintError (err s1) :: PrintBlank :: t').

(** The [max_space] arguments given to [FrankQN] in a trace. *)
Fixpoint history_bounds (t : list Event) : list Z :=
  match t with
  | [] => []
  | CallFrankQN _ _ _ ms :: t' => ms :: history_bounds t'
  | _ :: t' => history_bounds t'
  end.

End Driver.

(** ** A small instance to run the definitions on

    Payloads are trivial.  The evaluation routines report the absolute
    value of the first potential as scalar error, the potential itself as
    error vector and energy zero; the driver keeps the current potential and
    halves it at every step. *)
Module Demo.

#[export] Instance payload : Payload :=
  {| FragPart := unit; Veff := unit; KwVal := unit; ScratchDir := unit |}.

Definition first_abs (xk : list float) : float :=
  PrimFloat.abs (List.hd 0%float xk).

Definition halve (xk : list float) : list float :=
  List.map (fun x => PrimFloat.mul x 0.5%float) xk.

#[export] Instance halving : External :=
  {| be_func := fun a => Returned (first_abs (sc_pot a), sc_pot a, 0%float);
     be_func_parallel := fun a => Returned (first_abs (pc_pot a), pc_pot a, 0%float);
     QN := list float;
     FrankQN := fun x0 _ _ _ => x0;
     next_step := fun q _ => Eval (halve q) (fun _ => Done (halve q)) |}.

(** [BEOPT(pot, (), 0, 0.0, nproc=nproc, max_space=max_space,
    conv_tol=conv_tol)], the other arguments at their defaults. *)
Definition instance (pot_ : list float) (nproc_ max_space_ : Z) (conv_tol_ : float) : BEOPT :=
  BEOPT__init__ pot_ tt 0 0%float "MP2" 0%float nproc_ 4 false None false
    0.001%float None None max_space_ conv_tol_ false 0%float None ∅.

End Demo.

(** ** Scratch directories (quemb.shared.manage_scratch)

    The tests in src/tests/scratch_manager_test.py exercise [WorkDir]; the
    class itself is not among the sources. *)
Module ManageScratch.

(** Modelled from the spec: the file system the scratch provider works on.
    A directory is known by its path and holds files (name to contents);
    the class [WorkDir] and its methods below are missing from the sources
    and follow the spec's description of the scratch directory provider. *)
Abbreviation FS := (gmap string (gmap string string)).

Definition IO (A : Type) : Type := FS -> Outcome A * FS.

(** [Path.exists()]. *)
Definition path_exists (p : string) (fs : FS) : bool :=
  bool_decide (is_Some (fs !! p)).

(** [tempfile.mkdtemp()]: a new, empty directory under a name not in use. *)
Definition mkdtemp : FS -> string * FS := fun fs =>
  let p := fresh (dom fs) in (p, <[p := ∅]> fs).

(** [Path.touch()] on a file of an existing directory. *)
Definition touch (p name : string) (fs : FS) : FS :=
  match fs !! p with
  | Some files => <[p := <[name := ""]> files]> fs
  | None => fs
  end.

(** Modelled from the spec: a scratch location is known by its path. *)
Record WorkDir : Type := mkWorkDir { path : string }.

(** Modelled from the spec: acquiring a location, [WorkDir(path)].  The
    location exists afterwards; a pre-existing non-empty directory is a
    scratch-resource error ([ValueError]) and is left as it is. *)
Definition WorkDir__init__ (p : string) : IO WorkDir := fun fs =>
  match fs !! p with
  | None => (Returned (mkWorkDir p), <[p := ∅]> fs)
  | Some files =>
      if decide (files = ∅) then (Returned (mkWorkDir p), fs)
      else (Raised (PyError "ValueError"), fs)
  end.

(** Modelled from the spec: releasing a location, [WorkDir.cleanup()].  The
    directory is removed with its contents; a location that is already gone
    is an error the caller can detect ([FileNotFoundError]). *)
Definition cleanup (w : WorkDir) : IO unit := fun fs =>
  match fs !! path w with
  | Some _ => (Returned tt, delete (path w) fs)
  | None => (Raised (PyError "FileNotFoundError"), fs)
  end.

(** Modelled from the spec: [with WorkDir(p) as w: body].  On normal
    completion of the block the location is released; when the block
    raises, the location is kept and the exception goes on to the caller. *)
Definition with_WorkDir {A : Type} (p : string) (body : WorkDir -> IO A) : IO A :=
  fun fs =>
    match WorkDir__init__ p fs with
    | (Raised e, fs1) => (Raised e, fs1)
    | (Returned w, fs1) =>
        match body w fs1 with
        | (Raised e, fs2) => (Raised e, fs2)
        | (Returned a, fs2) =>
            match cleanup w fs2 with
            | (Returned _, fs3) => (Returned a, fs3)
            | (Raised e, fs3) => (Raised e, fs3)
            end
        end
    end.

(** [with pytest.raises(cls): block]: passes when the block raises [cls],
    fails when it raises nothing, lets any other exception through. *)
Definition raises {A : Type} (cls : string) (block : IO A) : IO unit := fun fs =>
  match block fs with
  | (Returned _, fs1) => (Raised (PyError "Failed"), fs1)
  | (Raised (PyError c), fs1) =>
      if String.eqb c cls then (Returned tt, fs1) else (Raised (PyError c), fs1)
  | (Raised e, fs1) => (Raised e, fs1)
  end.

(** [assert b]. *)
Definition assert (b : bool) : IO unit := fun fs =>
  if b then (Returned tt, fs) else (Raised (PyError "AssertionError"), fs).

Definition io_bind {A B : Type} (m : IO A) (k : A -> IO B) : IO B := fun fs =>
  match m fs with
  | (Returned a, fs1) => k a fs1
  | (Raised e, fs1) => (Raised e, fs1)
  end.

(** [test_already_created] (scratch_manager_test.py, lines 10-20). *)
Definition test_already_created : IO unit := fun fs =>
  let '(my_tmp, fs0) := mkdtemp fs in
  io_bind (fun f => assert (path_exists my_tmp f) f) (fun _ =>
  io_bind (WorkDir__init__ my_tmp) (fun scratch =>
  io_bind (cleanup scratch) (fun _ =>
  io_bind (fun f => assert (negb (path_exists my_tmp f)) f) (fun _ =>
  raises "FileNotFoundError" (cleanup scratch))))) fs0.

(** [test_already_created_non_empty] (lines 37-48). *)
Definition test_already_created_non_empty : IO unit := fun fs =>
  let '(my_tmp, fs0) := mkdtemp fs in
  io_bind (fun f => assert (path_exists my_tmp f) f) (fun _ =>
  io_bind (fun f => (Returned tt, touch my_tmp "testfile" f)) (fun _ =>
  io_bind (raises "ValueError"
             (with_WorkDir my_tmp (fun _ f => (Returned tt, f)))) (fun _ =>
  fun f => assert (path_exists my_tmp f) f))) fs0.

(** [test_keep_upon_error] (lines 23-34). *)
Definition test_keep_upon_error : IO unit := fun fs =>
  let '(my_tmp, fs0) := mkdtemp fs in
  io_bind (fun f => assert (path_exists my_tmp f) f) (fun _ =>
  io_bind (raises "ValueError"
             (with_WorkDir my_tmp
                (fun _ f => (@Raised unit (PyError "ValueError"), f)))) (fun _ =>
  io_bind (fun f => assert (path_exists my_tmp f) f) (fun _ =>
  io_bind (with_WorkDir my_tmp (fun _ f => (Returned tt, f))) (fun _ =>
  fun f => assert (negb (path_exists my_tmp f)) f)))) fs0.

(** [test_context_manager] (lines 51-58). *)
Definition test_context_manager : IO unit := fun fs =>
  let '(my_tmp, fs0) := mkdtemp fs in
  io_bind (fun f => assert (path_exists my_tmp f) f) (fun _ =>
  io_bind (with_WorkDir my_tmp (fun _ f => (Returned tt, f))) (fun _ =>
  fun f => assert (negb (path_exists my_tmp f)) f)) fs0.

End ManageScratch.

(** ** More ways to read a run *)

Section RunReaders.
Context {PL : Payload} {EX : External}.

(** The instance constructed with the same arguments as [s] except for
    [hci_pt], which is [b]. *)
Definition with_hci_pt (b : bool) (s : BEOPT) : BEOPT :=
  {| ebe_hf := ebe_hf s; hf_veff := hf_veff s; pot := pot s; Fobjs := Fobjs s;
     Nocc := Nocc s; enuc := enuc s; solver := solver s; ecore := ecore s;
     iter := iter s; err := err s; Ebe := Ebe s;
     max_space := max_space s; nproc := nproc s; ompnum := ompnum s;
     only_chem := only_chem s; conv_tol := conv_tol s;
     relax_density := relax_density s; hci_cutoff := hci_cutoff s;
     ci_coeff_cutoff := ci_coeff_cutoff s; select_cutoff := select_cutoff s;
     hci_pt := b; solver_kwargs := solver_kwargs s;
     scratch_dir := scratch_dir s |}.

Definition is_evaluation (ev : Event) : bool :=
  match ev with
  | CallBeFunc _ | CallBeFuncParallel _ => true
  | _ => false
  end.

(** The call recorded when an instance with the attributes of [self] and
    the counter at [i] evaluates the potential [xk]. *)
Definition evaluation_event (self : BEOPT) (xk : list float) (i : Z) : Event :=
  if nproc self =? 1
  then CallBeFunc (serial_call xk (set_iter i self))
  else CallBeFuncParallel (parallel_call xk (set_iter i self)).

(** An event that, if it is an evaluation, is one an instance with the
    attributes of [self] makes. *)
Definition from_settings (self : BEOPT) (ev : Event) : Prop :=
  is_evaluation ev = true -> exists xk i, ev = evaluation_event self xk i.

(** The [trust_region] flags given to [next_step] in a trace. *)
Fixpoint step_flags (t : list Event) : list bool :=
  match t with
  | [] => []
  | CallNextStep b :: t' => b :: step_flags t'
  | _ :: t' => step_flags t'
  end.

(** The argument lists of the [FrankQN] constructions of a trace. *)
Fixpoint driver_builds (t : list Event)
  : list (list float * list float * option (list (list float)) * Z) :=
  match t with
  | [] => []
  | CallFrankQN x0 f0 J0 ms :: t' => (x0, f0, J0, ms) :: driver_builds t'
  | _ :: t' => driver_builds t'
  end.

(** Every scalar error the evaluation routines return is not-a-number. *)
Definition errors_are_nan : Prop :=
  (forall a e v E, be_func a = Returned (e, v, E) -> e = PrimFloat.nan) /\
  (forall a e v E, be_func_parallel a = Returned (e, v, E) -> e = PrimFloat.nan).

(** A convergence banner, of either kind, was printed. *)
Definition banner_printed (t : list Event) : Prop :=
  In (Print "CONVERGED") t \/ In (Print "CONVERGED w/o Optimization Steps") t.

End RunReaders.

(** ** A second small instance, with a routine that raises

    The evaluation routines raise [RuntimeError] when the first potential
    exceeds 4 in absolute value and behave as in [Demo] otherwise; the
    driver doubles the potential at every step. *)
Module Fragile.

Definition evaluate (xk : list float) : Outcome (float * list float * float) :=
  if PrimFloat.ltb 4%float (Demo.first_abs xk)
  then Raised (PyError "RuntimeError")
  else Returned (Demo.first_abs xk, xk, 0%float).

Definition double (xk : list float) : list float :=
  List.map (fun x => PrimFloat.mul x 2%float) xk.

Definition doubling : @External Demo.payload :=
  {| be_func := fun a => evaluate (sc_pot a);
     be_func_parallel := fun a => evaluate (pc_pot a);
     QN := list float;
     FrankQN := fun x0 _ _ _ => x0;
     next_step := fun q _ => Eval (double q) (fun _ => Done (double q)) |}.

(** Evaluation routines that return not-a-number as scalar error. *)
Definition blind : @External Demo.payload :=
  {| be_func := fun a => Returned (PrimFloat.nan, sc_pot a, 0%float);
     be_func_parallel := fun a => Returned (PrimFloat.nan, pc_pot a, 0%float);
     QN := list float;
     FrankQN := fun x0 _ _ _ => x0;
     next_step := fun q _ => Eval (double q) (fun _ => Done (double q)) |}.

End Fragile.

(** ** Files in scratch directories *)
Module ScratchFiles.
Import ManageScratch.

(** [open(p / name, "w").write(text)]: the file is created or replaced;
    the directory has to exist. *)
Definition write_text (p name text : string) : IO unit := fun fs =>
  match fs !! p with
  | Some files => (Returned tt, <[p := <[name := text]> files]> fs)
  | None => (Raised (PyError "FileNotFoundError"), fs)
  end.

(** [open(p / name).read()]. *)
Definition read_text (p name : string) : IO string := fun fs =>
  match fs !! p with
  | Some files =>
      match files !! name with
      | Some text => (Returned text, fs)
      | None => (Raised (PyError "FileNotFoundError"), fs)
      end
  | None => (Raised (PyError "FileNotFoundError"), fs)
  end.

(** [test_creation_user_defined] (scratch_manager_test.py, lines 61-66),
    for the resolved path [p] of ["./scratch_test"]. *)
Definition test_creation_user_defined (p : string) : IO unit := fun fs =>
  io_bind
    (with_WorkDir p (fun scratch =>
       io_bind (fun f => assert (path_exists p f) f) (fun _ =>
       assert (String.eqb (path scratch) p))))
    (fun _ => fun f => assert (negb (path_exists p f)) f) fs.

(** [test_dunder_methods] (lines 79-86), for the resolved path [p] of
    ["./scratch"]. *)
Definition test_dunder_methods (p : string) : IO unit :=
  with_WorkDir p (fun scratch =>
    io_bind (write_text (path scratch) "test.txt" "hello world") (fun _ =>
    io_bind (read_text (path scratch) "test.txt") (fun text =>
    assert (String.eqb text "hello world")))).

End ScratchFiles.

(** * Properties of the driver *)

Section DriverFacts.
Context {PL : Payload} {EX : External}.

(** A new instance starts with the iteration counter, the scalar error and
    the energy at zero and keeps every argument under its own name. *)
Lemma new_instance_counters
    (pot_ : list float) (Fobjs_ : FragPart) (Nocc_ : Z) (enuc_ : float)
    (solver_ : string) (ecore_ : float) (nproc_ ompnum_ : Z)
    (only_chem_ : bool) (hf_veff_ : option Veff) (hci_pt_ : bool)
    (hci_cutoff_ : float) (ci_coeff_cutoff_ select_cutoff_ : option float)
    (max_space_ : Z) (conv_tol_ : float) (relax_density_ : bool)
    (ebe_hf_ : float) (scratch_dir_ : option ScratchDir)
    (solver_kwargs_ : gmap string KwVal) :
  let self := BEOPT__init__ pot_ Fobjs_ Nocc_ enuc_ solver_ ecore_ nproc_ ompnum_
                only_chem_ hf_veff_ hci_pt_ hci_cutoff_ ci_coeff_cutoff_
                select_cutoff_ max_space_ conv_tol_ relax_density_ ebe_hf_
                scratch_dir_ solver_kwargs_ in
  iter self = 0 /\ err self = 0%float /\ Ebe self = 0%float /\
  pot self = pot_ /\ max_space self = max_space_ /\ conv_tol self = conv_tol_ /\
  nproc self = nproc_ /\ ompnum self = ompnum_.
Proof. cbn. repeat split. Qed.

(** ** Unfolding equations *)

Lemma dispatch_state (xk : list float) (s : BEOPT) :
  state_of (dispatch xk s) = s.
Proof. unfold dispatch, state_of. destruct (nproc s =? 1); reflexivity. Qed.

Lemma objfunc_eq (xk : list float) (s : BEOPT) :
  objfunc xk s =
  match outcome_of (dispatch xk s) with
  | Returned (e, v, E) => (Returned v, set_Ebe E (set_err e s), events_of (dispatch xk s))
  | Raised x => (Raised x, s, events_of (dispatch xk s))
  end.
Proof.
  unfold objfunc, bind, outcome_of, events_of.
  pose proof (dispatch_state xk s) as Hs. unfold state_of in Hs.
  destruct (dispatch xk s) as [[o s1] t]. simpl in *. subst s1.
  destruct o as [[[e v] E]|x]; simpl; [|reflexivity].
  now rewrite app_nil_r.
Qed.

Lemma optimize_unsupported_eq (method : string) J0 tr (s : BEOPT) :
  String.eqb method "QN" = false ->
  optimize method J0 tr s =
  (Raised (SystemExit None), s, opening s ++ [unsupported_message]).
Proof.
  intros Hm. unfold optimize, opening, bind, attr, emit, raise, ret.
  rewrite Hm. destruct (only_chem s); reflexivity.
Qed.

Lemma optimize_QN_eq J0 tr (s : BEOPT) :
  optimize "QN" J0 tr s =
  match objfunc (pot s) s with
  | (Raised x, s1, t) => (Raised x, s1, opening s ++ PrintIter (iter s) :: t)
  | (Returned f0, s1, t) =>
      let pre := opening s ++ PrintIter (iter s) :: t ++
                 [PrintError (err s1); PrintBlank;
                  CallFrankQN (pot s1) f0 J0 (max_space s1)] in
      if PrimFloat.ltb (err s1) (conv_tol s1)
      then (Returned tt, s1, pre ++ immediate_banner)
      else match steps (Z.to_nat (max_space s1))
                   (FrankQN (pot s1) f0 J0 (max_space s1)) tr s1 with
           | (o, s2, t') => (o, s2, pre ++ t')
           end
  end.
Proof.
  unfold optimize, opening, immediate_banner, bind, attr, emit, raise, ret.
  cbn [String.eqb Ascii.eqb Bool.eqb].
  destruct (only_chem s); cbn [app];
    destruct (objfunc (pot s) s) as [[[f0|x] s1] t]; cbn [app]; try reflexivity;
    destruct (PrimFloat.ltb (err s1) (conv_tol s1)); cbn [app];
    try destruct (steps _ _ _ s1) as [[o s2] t'];
    rewrite <- ?app_assoc; cbn [app]; reflexivity.
Qed.

Lemma call_next_step_eq (q : QN) (tr : bool) (s : BEOPT) :
  call_next_step q tr s =
  match run (next_step q tr) s with
  | (Returned q', s1, t) => (Returned q', s1, CallNextStep tr :: t ++ [NextStepReturned])
  | (Raised x, s1, t) => (Raised x, s1, CallNextStep tr :: t)
  end.
Proof.
  unfold call_next_step, bind, emit, ret.
  destruct (run (next_step q tr) s) as [[[q'|x] s1] t]; reflexivity.
Qed.

Lemma steps_S (n : nat) (q : QN) (tr : bool) (s : BEOPT) :
  steps (S n) q tr s =
  match call_next_step q tr s with
  | (Raised x, s1, t) => (Raised x, s1, PrintIter (iter s) :: t)
  | (Returned q', s1, t) =>
      let s2 := set_iter (iter s1 + 1) s1 in
      if PrimFloat.ltb (err s2) (conv_tol s2)
      then (Returned tt, s2,
            PrintIter (iter s) :: t ++ PrintError (err s2) :: PrintBlank :: converged_banner)
      else match steps n q' tr s2 with
           | (o, s3, t') =>
               (o, s3, PrintIter (iter s) :: t ++ PrintError (err s2) :: PrintBlank :: t')
           end
  end.
Proof.
  cbn [steps]. unfold bind at 1 2 3. unfold attr at 1, emit at 1. cbn [app].
  destruct (call_next_step q tr s) as [[[q'|x] s1] t]; [|reflexivity].
  unfold bind, attr, emit, assign, ret, converged_banner. cbn [app err conv_tol set_iter].
  destruct (PrimFloat.ltb (err s1) (conv_tol s1)); cbn [app]; [reflexivity|].
  destruct (steps n q' tr _) as [[o s3] t']. reflexivity.
Qed.

(** ** What a call of the objective function may change *)

Ltac by_fields :=
  intros; unfold only_results_differ, same_settings in *;
  repeat match goal with s : BEOPT |- _ => destruct s end;
  unfold set_Ebe, set_err, set_iter in *; cbn in *;
  repeat match goal with E : mkBEOPT _ _ _ _ _ _ _ _ _ _ _ _ _ _ _ _ _ _ _ _ _ _ _ = _ |- _ =>
    injection E as; subst end;
  reflexivity.

Lemma only_results_differ_refl (s : BEOPT) : only_results_differ s s.
Proof. by_fields. Qed.

Lemma only_results_differ_store (s : BEOPT) (e E : float) :
  only_results_differ s (set_Ebe E (set_err e s)).
Proof. by_fields. Qed.

Lemma only_results_differ_trans (s s1 s2 : BEOPT) :
  only_results_differ s s1 -> only_results_differ s1 s2 -> only_results_differ s s2.
Proof. by_fields. Qed.

Lemma only_results_differ_iter (s s1 : BEOPT) :
  only_results_differ s s1 -> iter s1 = iter s.
Proof. by_fields. Qed.

Lemma only_results_differ_settings (s s1 : BEOPT) :
  only_results_differ s s1 -> same_settings s s1.
Proof. by_fields. Qed.

Lemma same_settings_refl (s : BEOPT) : same_settings s s.
Proof. by_fields. Qed.

Lemma same_settings_trans (s s1 s2 : BEOPT) :
  same_settings s s1 -> same_settings s1 s2 -> same_settings s s2.
Proof. by_fields. Qed.

Lemma same_settings_set_iter (s s1 : BEOPT) (i : Z) :
  same_settings s s1 -> same_settings s (set_iter i s1).
Proof. by_fields. Qed.

Lemma same_settings_conv_tol (s s1 : BEOPT) :
  same_settings s s1 -> conv_tol s1 = conv_tol s.
Proof. by_fields. Qed.

Lemma same_settings_max_space (s s1 : BEOPT) :
  same_settings s s1 -> max_space s1 = max_space s.
Proof. by_fields. Qed.

Lemma same_settings_pot (s s1 : BEOPT) :
  same_settings s s1 -> pot s1 = pot s.
Proof. by_fields. Qed.

(** ** Counting in traces *)

Lemma next_step_calls_app (t1 t2 : list Event) :
  next_step_calls (t1 ++ t2) = (next_step_calls t1 + next_step_calls t2)%nat.
Proof. unfold next_step_calls. now rewrite List.filter_app, List.length_app. Qed.

Lemma completed_steps_app (t1 t2 : list Event) :
  completed_steps (t1 ++ t2) = (completed_steps t1 + completed_steps t2)%nat.
Proof. unfold completed_steps. now rewrite List.filter_app, List.length_app. Qed.

Lemma reported_errors_app (t1 t2 : list Event) :
  reported_errors (t1 ++ t2) = reported_errors t1 ++ reported_errors t2.
Proof.
  induction t1 as [|ev t1 IH]; [reflexivity|].
  destruct ev; cbn [app reported_errors]; now rewrite IH.
Qed.

Lemma history_bounds_app (t1 t2 : list Event) :
  history_bounds (t1 ++ t2) = history_bounds t1 ++ history_bounds t2.
Proof.
  induction t1 as [|ev t1 IH]; [reflexivity|].
  destruct ev; cbn [app history_bounds]; now rewrite IH.
Qed.

Lemma iter_consistent_app (i : Z) (t1 t2 : list Event) :
  iter_consistent i (t1 ++ t2) <->
  iter_consistent i t1 /\ iter_consistent (i + Z.of_nat (completed_steps t1)) t2.
Proof.
  revert i. induction t1 as [|ev t1 IH]; intros i.
  - cbn. rewrite Z.add_0_r. tauto.
  - cbn [app iter_consistent]. rewrite IH.
    unfold completed_steps. cbn [List.filter].
    destruct (is_next_step_return ev); cbn [List.length].
    + replace (i + 1 + Z.of_nat (List.length (List.filter is_next_step_return t1)))
        with (i + Z.of_nat (S (List.length (List.filter is_next_step_return t1)))) by lia.
      tauto.
    + tauto.
Qed.

(** A trace made of evaluations only. *)
Lemma evaluations_quiet (i : Z) (t : list Event) :
  Forall (evaluation_at i) t ->
  next_step_calls t = 0%nat /\ completed_steps t = 0%nat /\
  reported_errors t = [] /\ history_bounds t = [] /\
  iter_consistent i t /\ Forall (fun ev => is_error_report ev = false) t.
Proof.
  induction 1 as [|ev t Hev _ IH]; [cbn; auto 10|].
  destruct IH as (Hc & Hr & He & Hh & Hi & Hq).
  unfold next_step_calls, completed_steps in *.
  destruct ev; cbn in Hev; try contradiction;
    cbn [List.filter is_next_step_call is_next_step_return reported_errors
         history_bounds iter_consistent observed_iter];
    (repeat split; auto).
Qed.

Lemma dispatch_events (xk : list float) (s : BEOPT) :
  Forall (evaluation_at (iter s)) (events_of (dispatch xk s)).
Proof.
  unfold dispatch, events_of.
  destruct (nproc s =? 1); cbn; repeat constructor.
Qed.

Lemma objfunc_frame (xk : list float) (s : BEOPT) :
  only_results_differ s (state_of (objfunc xk s)) /\
  Forall (evaluation_at (iter s)) (events_of (objfunc xk s)).
Proof.
  rewrite objfunc_eq. pose proof (dispatch_events xk s) as Hev.
  destruct (outcome_of (dispatch xk s)) as [[[e v] E]|x]; cbn; split; auto.
  - apply only_results_differ_store.
  - apply only_results_differ_refl.
Qed.

Lemma run_frame {A : Type} (p : Prog A) (s : BEOPT) :
  only_results_differ s (state_of (run p s)) /\
  Forall (evaluation_at (iter s)) (events_of (run p s)).
Proof.
  revert s. induction p as [a|e|xk k IH]; intros s; cbn [run].
  - cbn. split; [apply only_results_differ_refl|constructor].
  - cbn. split; [apply only_results_differ_refl|constructor].
  - unfold bind. destruct (objfunc_frame xk s) as [Hf Hev].
    destruct (objfunc xk s) as [[[v|x] s1] t1]; cbn in Hf, Hev; [|cbn; auto].
    specialize (IH v s1). destruct (run (k v) s1) as [[o s2] t2].
    cbn in IH |- *. destruct IH as [Hf2 Hev2]. split.
    + eapply only_results_differ_trans; eauto.
    + apply Forall_app. split; [assumption|].
      now rewrite <- (only_results_differ_iter _ _ Hf).
Qed.

Lemma objfunc_succeeds (xk : list float) (s : BEOPT) :
  collaborators_succeed -> exists v, outcome_of (objfunc xk s) = Returned v.
Proof.
  intros (Hs & Hp & _). rewrite objfunc_eq. unfold dispatch, outcome_of.
  destruct (nproc s =? 1); cbn.
  - destruct (Hs (serial_call xk s)) as [[[e v] E] ->]. eauto.
  - destruct (Hp (parallel_call xk s)) as [[[e v] E] ->]. eauto.
Qed.

Lemma run_succeeds {A : Type} (p : Prog A) (s : BEOPT) :
  collaborators_succeed -> no_fail p -> exists a, outcome_of (run p s) = Returned a.
Proof.
  intros Hc. revert s. induction p as [a|e|xk k IH]; intros s Hp; cbn [run].
  - now exists a.
  - contradiction.
  - unfold bind. destruct (objfunc_succeeds xk s Hc) as [v Hv].
    destruct (objfunc xk s) as [[o s1] t1]. cbn in Hv. subst o.
    destruct (IH v s1 (Hp v)) as [a Ha].
    destruct (run (k v) s1) as [[o s2] t2]. cbn in Ha |- *. eauto.
Qed.

(** ** The loop function produces runs of the loop relation *)

Lemma steps_run (tr : bool) (n : nat) (q : QN) (s : BEOPT) :
  LoopRun tr n s (outcome_of (steps n q tr s)) (state_of (steps n q tr s))
    (events_of (steps n q tr s)).
Proof.
  revert q s. induction n as [|n IH]; intros q s.
  - cbn. constructor.
  - rewrite steps_S, call_next_step_eq.
    destruct (run_frame (next_step q tr) s) as [Hf Hev].
    pose proof (fun Hc Hp => run_succeeds (next_step q tr) s Hc Hp) as Hok.
    destruct (run (next_step q tr) s) as [[[q'|x] s1] t]; cbn in Hf, Hev, Hok.
    + cbn [set_iter err conv_tol]. cbv zeta.
      replace (err (set_iter (iter s1 + 1) s1)) with (err s1) by reflexivity.
      replace (conv_tol (set_iter (iter s1 + 1) s1)) with (conv_tol s1) by reflexivity.
      destruct (PrimFloat.ltb (err s1) (conv_tol s1)) eqn:Hlt.
      * cbn. rewrite <- app_assoc. cbn [app]. now apply loop_converged.
      * specialize (IH q' (set_iter (iter s1 + 1) s1)).
        destruct (steps n q' tr _) as [[o s3] t']. cbn in IH |- *.
        rewrite <- app_assoc. cbn [app]. now apply loop_continued.
    + cbn. apply loop_raised; try assumption.
      intros Hc. destruct (Hok Hc) as [a Ha]; [apply Hc|discriminate].
Qed.

(** ** Invariants of the loop, by induction on its runs *)

Lemma next_step_calls_cons (ev : Event) (t : list Event) :
  next_step_calls (ev :: t) =
  ((if is_next_step_call ev then 1 else 0) + next_step_calls t)%nat.
Proof. unfold next_step_calls. cbn. now destruct (is_next_step_call ev). Qed.

Lemma completed_steps_cons (ev : Event) (t : list Event) :
  completed_steps (ev :: t) =
  ((if is_next_step_return ev then 1 else 0) + completed_steps t)%nat.
Proof. unfold completed_steps. cbn. now destruct (is_next_step_return ev). Qed.

Ltac count_events :=
  unfold converged_banner, immediate_banner;
  repeat progress
    (rewrite ?next_step_calls_cons, ?next_step_calls_app,
             ?completed_steps_cons, ?completed_steps_app,
             ?reported_errors_app, ?history_bounds_app;
     cbn [is_next_step_call is_next_step_return reported_errors history_bounds
          app Nat.add]).

Lemma loop_settings (tr : bool) n s o s' t :
  LoopRun tr n s o s' t -> same_settings s s'.
Proof.
  induction 1 as [s|n s s1 t x Hf Hev Hc|n s s1 t Hf Hev Hlt
                  |n s s1 t o s3 t' Hf Hev Hlt Hrun IH].
  - apply same_settings_refl.
  - now apply only_results_differ_settings.
  - now apply same_settings_set_iter, only_results_differ_settings.
  - eapply same_settings_trans; [|exact IH].
    now apply same_settings_set_iter, only_results_differ_settings.
Qed.

Lemma loop_calls_bound (tr : bool) n s o s' t :
  LoopRun tr n s o s' t -> (next_step_calls t <= n)%nat.
Proof.
  induction 1 as [s|n s s1 t x Hf Hev Hc|n s s1 t Hf Hev Hlt
                  |n s s1 t o s3 t' Hf Hev Hlt Hrun IH];
    try (destruct (evaluations_quiet _ _ Hev) as (Hq & _)); count_events.
  - cbn. lia.
  - lia.
  - cbn. lia.
  - lia.
Qed.

Lemma loop_counter (tr : bool) n s o s' t :
  LoopRun tr n s o s' t ->
  iter_consistent (iter s) t /\
  iter s' = iter s + Z.of_nat (completed_steps t) /\
  (completed_steps t <= next_step_calls t <= completed_steps t + 1)%nat /\
  (o = Returned tt -> next_step_calls t = completed_steps t) /\
  history_bounds t = [].
Proof.
  induction 1 as [s|n s s1 t x Hf Hev Hc|n s s1 t Hf Hev Hlt
                  |n s s1 t o s3 t' Hf Hev Hlt Hrun IH];
    try (destruct (evaluations_quiet _ _ Hev) as (Hq & Hr & _ & Hh & Hi & _);
         pose proof (only_results_differ_iter _ _ Hf) as Hit).
  - cbn. repeat split; auto; lia.
  - count_events. rewrite Hq, Hr, Hh. cbn.
    repeat split; auto; try lia. discriminate.
  - count_events. rewrite Hq, Hr, Hh. cbn [iter_consistent observed_iter is_next_step_return].
    rewrite iter_consistent_app, Hr. cbn. rewrite Hit.
    repeat split; auto; lia.
  - destruct IH as (IHc & IHi & IHb & IHo & IHh). cbn [iter set_iter] in IHc, IHi.
    rewrite Hit in IHc, IHi.
    count_events. rewrite Hq, Hr, Hh, IHh.
    cbn [iter_consistent observed_iter is_next_step_return].
    rewrite iter_consistent_app, Hr. cbn [iter_consistent observed_iter is_next_step_return].
    change (Z.of_nat 0) with 0. rewrite Z.add_0_r. cbn [app Nat.add].
    repeat split; auto; lia.
Qed.

Lemma loop_exhaust (tr : bool) n s o s' t :
  LoopRun tr n s o s' t ->
  collaborators_succeed ->
  Forall (fun e => PrimFloat.ltb e (conv_tol s) = false) (reported_errors t) ->
  o = Returned tt /\ next_step_calls t = n /\ completed_steps t = n /\
  ~ In (Print "CONVERGED") t.
Proof.
  induction 1 as [s|n s s1 t x Hf Hev Hc|n s s1 t Hf Hev Hlt
                  |n s s1 t o s3 t' Hf Hev Hlt Hrun IH]; intros Hok Hall;
    try (destruct (evaluations_quiet _ _ Hev) as (Hq & Hr & He & _ & _ & Hn);
         pose proof (same_settings_conv_tol _ _ (only_results_differ_settings _ _ Hf)) as Htol).
  - cbn. auto.
  - contradiction.
  - exfalso. revert Hall. count_events. rewrite He. cbn.
    intros Hall. apply Forall_cons in Hall as [Hall _]. congruence.
  - revert Hall. count_events. rewrite He, Hq, Hr. cbn [app].
    intros Hall. apply Forall_cons in Hall as [_ Hall].
    destruct IH as (-> & IHc & IHr & IHn); [assumption| |].
    { cbn [conv_tol set_iter]. now rewrite Htol. }
    repeat split; try lia.
    intros Hin. cbn in Hin. destruct Hin as [Hin|[Hin|Hin]]; try discriminate.
    apply in_app_or in Hin as [Hin|Hin].
    + rewrite List.Forall_forall in Hev. apply Hev in Hin. exact Hin.
    + cbn in Hin. destruct Hin as [Hin|[Hin|[Hin|Hin]]]; try discriminate. auto.
Qed.

(** ** Where a trace can be cut *)

Lemma evaluations_not (P : Event -> bool) (i : Z) (t : list Event) :
  (forall a, P (CallBeFunc a) = false) ->
  (forall a, P (CallBeFuncParallel a) = false) ->
  Forall (evaluation_at i) t -> Forall (fun ev => P ev = false) t.
Proof.
  intros Hs Hp. induction 1 as [|ev t Hev _ IH]; constructor; [|assumption].
  destruct ev; cbn in Hev; try contradiction; auto.
Qed.

Lemma no_cut (P : Event -> bool) (l t1 : list Event) (y : Event) (t2 : list Event) :
  Forall (fun ev => P ev = false) l -> P y = true -> l <> t1 ++ y :: t2.
Proof.
  intros Hl Hy ->. rewrite List.Forall_forall in Hl.
  specialize (Hl y (in_elt y t1 t2)). rewrite Hy in Hl. discriminate.
Qed.

Lemma split_past (P : Event -> bool) (pre r t1 : list Event) (y : Event) (t2 : list Event) :
  Forall (fun ev => P ev = false) pre -> P y = true ->
  pre ++ r = t1 ++ y :: t2 ->
  exists t1', t1 = pre ++ t1' /\ r = t1' ++ y :: t2.
Proof.
  intros Hpre Hy. revert t1. induction Hpre as [|a pre Ha _ IH]; intros t1 Heq.
  - exists t1. auto.
  - destruct t1 as [|b t1]; cbn in Heq; injection Heq as Hab Heq.
    + subst a. rewrite Hy in Ha. discriminate.
    + subst b. destruct (IH _ Heq) as (t1' & -> & ->). exists t1'. auto.
Qed.

(** Once a step leaves the error below the tolerance, what follows its
    report is the convergence banner and nothing else. *)
Lemma loop_stop (tr : bool) n s o s' t :
  LoopRun tr n s o s' t ->
  forall t1 e t2,
    t = t1 ++ PrintError e :: t2 ->
    PrimFloat.ltb e (conv_tol s) = true ->
    t2 = PrintBlank :: converged_banner /\ o = Returned tt /\ err s' = e /\
    (0 < next_step_calls t1)%nat.
Proof.
  induction 1 as [s|n s s1 t x Hf Hev Hc|n s s1 t Hf Hev Hlt
                  |n s s1 t o s3 t' Hf Hev Hlt Hrun IH]; intros t1 e t2 Heq He;
    try (pose proof (evaluations_not is_error_report _ _
                       (fun _ => eq_refl) (fun _ => eq_refl) Hev) as Hq;
         pose proof (same_settings_conv_tol _ _
                       (only_results_differ_settings _ _ Hf)) as Htol).
  - destruct t1; discriminate.
  - exfalso. revert Heq. apply (no_cut is_error_report); [|reflexivity].
    repeat constructor. exact Hq.
  - change (PrintIter (iter s) :: CallNextStep tr :: t ++
            NextStepReturned :: PrintError (err s1) :: PrintBlank :: converged_banner)
      with ((PrintIter (iter s) :: CallNextStep tr :: t) ++
            NextStepReturned :: PrintError (err s1) :: PrintBlank :: converged_banner) in Heq.
    apply (split_past is_error_report) in Heq as (t1' & -> & Heq);
      [|repeat constructor; exact Hq|reflexivity].
    destruct t1' as [|b t1']; [discriminate|]. injection Heq as <- Heq.
    destruct t1' as [|b t1']; injection Heq as Hb Heq.
    + subst e t2. repeat split; auto.
      count_events. lia.
    + exfalso. revert Heq. apply (no_cut is_error_report); [|reflexivity].
      repeat constructor.
  - change (PrintIter (iter s) :: CallNextStep tr :: t ++
            NextStepReturned :: PrintError (err s1) :: PrintBlank :: t')
      with ((PrintIter (iter s) :: CallNextStep tr :: t) ++
            NextStepReturned :: PrintError (err s1) :: PrintBlank :: t') in Heq.
    apply (split_past is_error_report) in Heq as (t1' & -> & Heq);
      [|repeat constructor; exact Hq|reflexivity].
    destruct t1' as [|b t1']; [discriminate|]. injection Heq as <- Heq.
    destruct t1' as [|b t1']; injection Heq as Hb Heq.
    + subst e. rewrite Htol in Hlt. rewrite Hlt in He. discriminate.
    + subst b. destruct t1' as [|b t1']; [discriminate|]. injection Heq as <- Heq.
      destruct (IH t1' e t2 Heq) as (-> & -> & <- & _).
      { cbn [conv_tol set_iter]. now rewrite Htol. }
      repeat split; auto. count_events. lia.
Qed.

(** Every completed step is followed by the report of the error it left. *)
Lemma loop_report_after_step (tr : bool) n s o s' t :
  LoopRun tr n s o s' t ->
  forall t1 t2,
    t = t1 ++ NextStepReturned :: t2 ->
    exists e t3, t2 = PrintError e :: PrintBlank :: t3.
Proof.
  induction 1 as [s|n s s1 t x Hf Hev Hc|n s s1 t Hf Hev Hlt
                  |n s s1 t o s3 t' Hf Hev Hlt Hrun IH]; intros t1 t2 Heq;
    try (pose proof (evaluations_not is_next_step_return _ _
                       (fun _ => eq_refl) (fun _ => eq_refl) Hev) as Hq).
  - destruct t1; discriminate.
  - exfalso. revert Heq. apply (no_cut is_next_step_return); [|reflexivity].
    repeat constructor. exact Hq.
  - change (PrintIter (iter s) :: CallNextStep tr :: t ++
            NextStepReturned :: PrintError (err s1) :: PrintBlank :: converged_banner)
      with ((PrintIter (iter s) :: CallNextStep tr :: t) ++
            NextStepReturned :: PrintError (err s1) :: PrintBlank :: converged_banner) in Heq.
    apply (split_past is_next_step_return) in Heq as (t1' & -> & Heq);
      [|repeat constructor; exact Hq|reflexivity].
    destruct t1' as [|b t1']; [injection Heq as Heq|injection Heq as Hb Heq].
    + subst t2. eauto.
    + exfalso. revert Heq. apply (no_cut is_next_step_return); [|reflexivity].
      repeat constructor.
  - change (PrintIter (iter s) :: CallNextStep tr :: t ++
            NextStepReturned :: PrintError (err s1) :: PrintBlank :: t')
      with ((PrintIter (iter s) :: CallNextStep tr :: t) ++
            NextStepReturned :: PrintError (err s1) :: PrintBlank :: t') in Heq.
    apply (split_past is_next_step_return) in Heq as (t1' & -> & Heq);
      [|repeat constructor; exact Hq|reflexivity].
    destruct t1' as [|b t1']; [injection Heq as Heq|injection Heq as Hb Heq].
    + subst t2. eauto.
    + destruct t1' as [|b1 t1']; [discriminate|]. injection Heq as _ Heq.
      destruct t1' as [|b2 t1']; [discriminate|]. injection Heq as _ Heq.
      eapply IH. exact Heq.
Qed.

(** ** The shape of a quasi-Newton run *)

Lemma opening_quiet (s : BEOPT) :
  next_step_calls (opening s) = 0%nat /\ completed_steps (opening s) = 0%nat /\
  reported_errors (opening s) = [] /\ history_bounds (opening s) = [] /\
  (forall i, iter_consistent i (opening s)) /\
  Forall (fun ev => is_error_report ev = false) (opening s) /\
  Forall (fun ev => is_next_step_return ev = false) (opening s).
Proof.
  unfold opening. destruct (only_chem s); cbn; repeat split; auto; repeat constructor.
Qed.

Lemma optimize_QN_run J0 (tr : bool) (s : BEOPT) :
  (exists x s1 t0,
      only_results_differ s s1 /\
      Forall (evaluation_at (iter s)) t0 /\ ~ collaborators_succeed /\
      optimize "QN" J0 tr s = (Raised x, s1, opening s ++ PrintIter (iter s) :: t0)) \/
  (exists f0 s1 t0,
      only_results_differ s s1 /\ Forall (evaluation_at (iter s)) t0 /\
      objfunc (pot s) s = (Returned f0, s1, t0) /\
      ((PrimFloat.ltb (err s1) (conv_tol s) = true /\
        optimize "QN" J0 tr s =
        (Returned tt, s1,
         (opening s ++ PrintIter (iter s) :: t0) ++
         PrintError (err s1) :: PrintBlank ::
         CallFrankQN (pot s) f0 J0 (max_space s) :: immediate_banner)) \/
       (PrimFloat.ltb (err s1) (conv_tol s) = false /\
        exists o s2 t',
          LoopRun tr (Z.to_nat (max_space s)) s1 o s2 t' /\
          optimize "QN" J0 tr s =
          (o, s2,
           (opening s ++ PrintIter (iter s) :: t0) ++
           PrintError (err s1) :: PrintBlank ::
           CallFrankQN (pot s) f0 J0 (max_space s) :: t')))).
Proof.
  rewrite optimize_QN_eq.
  destruct (objfunc_frame (pot s) s) as [Hf Hev].
  pose proof (objfunc_succeeds (pot s) s) as Hok.
  destruct (objfunc (pot s) s) as [[[f0|x] s1] t0]; cbn in Hf, Hev, Hok.
  - right. exists f0, s1, t0. repeat split; try assumption.
    pose proof (only_results_differ_settings _ _ Hf) as Hs.
    rewrite (same_settings_conv_tol _ _ Hs), (same_settings_max_space _ _ Hs),
      (same_settings_pot _ _ Hs).
    cbv zeta. destruct (PrimFloat.ltb (err s1) (conv_tol s)) eqn:Hlt.
    + left. split; [reflexivity|]. f_equal.
      rewrite <- !app_assoc. cbn [app]. rewrite <- !app_assoc. reflexivity.
    + right. split; [reflexivity|].
      pose proof (steps_run tr (Z.to_nat (max_space s))
                    (FrankQN (pot s) f0 J0 (max_space s)) s1) as Hrun.
      destruct (steps _ _ tr s1) as [[o s2] t']. cbn in Hrun.
      exists o, s2, t'. split; [assumption|]. f_equal.
      rewrite <- !app_assoc. cbn [app]. rewrite <- !app_assoc. reflexivity.
  - left. exists x, s1, t0. repeat split; try assumption.
    intros Hc. destruct (Hok Hc) as [v Hv]. discriminate.
Qed.

(** * The claims about [BEOPT] *)

Lemma objfunc_returned (xk : list float) (self : BEOPT)
    (e : float) (v : list float) (E : float) :
  outcome_of (dispatch xk self) = Returned (e, v, E) ->
  objfunc xk self = (Returned v, set_Ebe E (set_err e self), events_of (dispatch xk self)).
Proof. intros Hd. now rewrite objfunc_eq, Hd. Qed.

(** C1 (as amended).  [objfunc(xk)] stores the scalar error and the energy
    returned by the evaluation dispatch in [self.err] and [self.Ebe], leaves
    [self.pot] and the iteration counter as they were (no other attribute
    changes), and returns the error vector, which it does not store. *)
Theorem objfunc_stores_error_and_energy (xk : list float) (self : BEOPT)
    (e : float) (v : list float) (E : float) :
  outcome_of (dispatch xk self) = Returned (e, v, E) ->
  outcome_of (objfunc xk self) = Returned v /\
  err (state_of (objfunc xk self)) = e /\
  Ebe (state_of (objfunc xk self)) = E /\
  pot (state_of (objfunc xk self)) = pot self /\
  iter (state_of (objfunc xk self)) = iter self /\
  state_of (objfunc xk self) = set_Ebe E (set_err e self) /\
  events_of (objfunc xk self) = events_of (dispatch xk self).
Proof.
  intros Hd. rewrite (objfunc_returned _ _ _ _ _ Hd). cbn. repeat split; reflexivity.
Qed.

(** C7.  What the two branches of the evaluation dispatch pass on.  With
    [nproc = 1], [be_func] is called with the potential, every solver
    attribute of the object ([hci_pt] among them), [nproc = self.ompnum]
    and [be_iter = self.iter].  With [nproc > 1], [be_func_parallel] is
    called with [nproc = self.nproc], [ompnum = self.ompnum] and the same
    attributes except [hci_pt], which is not passed: instances that differ
    in [hci_pt] alone make the same parallel call, and so get the same
    result, while their serial calls differ.  In both branches the triple
    that comes back is used alike: error and energy are stored, the vector
    is returned. *)
Theorem dispatch_by_nproc (xk : list float) (self : BEOPT) :
  (nproc self = 1 ->
     dispatch xk self =
     (be_func (serial_call xk self), self, [CallBeFunc (serial_call xk self)])) /\
  (1 < nproc self ->
     dispatch xk self =
     (be_func_parallel (parallel_call xk self), self,
      [CallBeFuncParallel (parallel_call xk self)])) /\
  (sc_pot (serial_call xk self) = xk /\
   sc_Fobjs (serial_call xk self) = Fobjs self /\
   sc_Nocc (serial_call xk self) = Nocc self /\
   sc_solver (serial_call xk self) = solver self /\
   sc_enuc (serial_call xk self) = enuc self /\
   sc_eeval (serial_call xk self) = true /\
   sc_return_vec (serial_call xk self) = true /\
   sc_hf_veff (serial_call xk self) = hf_veff self /\
   sc_only_chem (serial_call xk self) = only_chem self /\
   sc_hci_cutoff (serial_call xk self) = hci_cutoff self /\
   sc_nproc (serial_call xk self) = ompnum self /\
   sc_relax_density (serial_call xk self) = relax_density self /\
   sc_ci_coeff_cutoff (serial_call xk self) = ci_coeff_cutoff self /\
   sc_select_cutoff (serial_call xk self) = select_cutoff self /\
   sc_hci_pt (serial_call xk self) = hci_pt self /\
   sc_ecore (serial_call xk self) = ecore self /\
   sc_ebe_hf (serial_call xk self) = ebe_hf self /\
   sc_be_iter (serial_call xk self) = iter self /\
   sc_scratch_dir (serial_call xk self) = scratch_dir self /\
   sc_kwargs (serial_call xk self) = solver_kwargs self) /\
  (pc_pot (parallel_call xk self) = xk /\
   pc_Fobjs (parallel_call xk self) = Fobjs self /\
   pc_Nocc (parallel_call xk self) = Nocc self /\
   pc_solver (parallel_call xk self) = solver self /\
   pc_enuc (parallel_call xk self) = enuc self /\
   pc_eeval (parallel_call xk self) = true /\
   pc_return_vec (parallel_call xk self) = true /\
   pc_hf_veff (parallel_call xk self) = hf_veff self /\
   pc_nproc (parallel_call xk self) = nproc self /\
   pc_ompnum (parallel_call xk self) = ompnum self /\
   pc_only_chem (parallel_call xk self) = only_chem self /\
   pc_hci_cutoff (parallel_call xk self) = hci_cutoff self /\
   pc_relax_density (parallel_call xk self) = relax_density self /\
   pc_ci_coeff_cutoff (parallel_call xk self) = ci_coeff_cutoff self /\
   pc_select_cutoff (parallel_call xk self) = select_cutoff self /\
   pc_ecore (parallel_call xk self) = ecore self /\
   pc_ebe_hf (parallel_call xk self) = ebe_hf self /\
   pc_be_iter (parallel_call xk self) = iter self /\
   pc_scratch_dir (parallel_call xk self) = scratch_dir self /\
   pc_kwargs (parallel_call xk self) = solver_kwargs self) /\
  (forall b,
     sc_hci_pt (serial_call xk (with_hci_pt b self)) = b /\
     parallel_call xk (with_hci_pt b self) = parallel_call xk self /\
     (nproc self <> 1 ->
      outcome_of (dispatch xk (with_hci_pt b self)) = outcome_of (dispatch xk self) /\
      events_of (dispatch xk (with_hci_pt b self)) = events_of (dispatch xk self))) /\
  (forall e v E,
     outcome_of (dispatch xk self) = Returned (e, v, E) ->
     outcome_of (objfunc xk self) = Returned v /\
     state_of (objfunc xk self) = set_Ebe E (set_err e self)).
Proof.
  split; [|split; [|split; [|split; [|split]]]].
  - intros Hone. unfold dispatch. now rewrite Hone.
  - intros Hmany. unfold dispatch.
    destruct (Z.eqb_spec (nproc self) 1) as [Heq|_]; [lia|reflexivity].
  - repeat split.
  - repeat split.
  - intros b. split; [reflexivity|]. split; [reflexivity|].
    intros Hn. unfold dispatch. cbn [nproc with_hci_pt].
    destruct (Z.eqb_spec (nproc self) 1) as [Heq|_]; [contradiction|].
    split; reflexivity.
  - intros e v E Hd. now rewrite (objfunc_returned _ _ _ _ _ Hd).
Qed.

(** C2 (as amended).  With any method other than ["QN"], [optimize] prints
    the opening lines and the unsupported-method message and calls
    [sys.exit()] without an argument: it returns no value, evaluates
    nothing and leaves the object as it was, and the exit status of the
    process is 0. *)
Theorem optimize_unsupported_exits (method : string) J0 (tr : bool) (self : BEOPT) :
  method <> "QN" ->
  outcome_of (optimize method J0 tr self) = Raised (SystemExit None) /\
  exit_status (outcome_of (optimize method J0 tr self)) = 0 /\
  state_of (optimize method J0 tr self) = self /\
  events_of (optimize method J0 tr self) = opening self ++ [unsupported_message].
Proof.
  intros Hm. rewrite optimize_unsupported_eq.
  - cbn. auto.
  - now apply String.eqb_neq.
Qed.

(** C3.  With method ["QN"], when the scalar error of the initial
    evaluation is below [conv_tol], [next_step] is not called, the
    iteration counter keeps its value (0 for a new instance) and the run
    ends normally on the banner of immediate convergence. *)
Theorem optimize_converged_without_steps J0 (tr : bool) (self : BEOPT)
    (e : float) (f0 : list float) (E : float) :
  outcome_of (dispatch (pot self) self) = Returned (e, f0, E) ->
  PrimFloat.ltb e (conv_tol self) = true ->
  outcome_of (optimize "QN" J0 tr self) = Returned tt /\
  next_step_calls (events_of (optimize "QN" J0 tr self)) = 0%nat /\
  iter (state_of (optimize "QN" J0 tr self)) = iter self /\
  (iter self = 0 -> iter (state_of (optimize "QN" J0 tr self)) = 0) /\
  events_of (optimize "QN" J0 tr self) =
    opening self ++ PrintIter (iter self) :: events_of (dispatch (pot self) self) ++
    [PrintError e; PrintBlank; CallFrankQN (pot self) f0 J0 (max_space self)] ++
    immediate_banner.
Proof.
  intros Hd Hlt.
  destruct (evaluations_quiet _ _ (dispatch_events (pot self) self)) as (Hq & _).
  destruct (opening_quiet self) as (Hoq & _).
  rewrite optimize_QN_eq, (objfunc_returned _ _ _ _ _ Hd). cbv zeta.
  change (err (set_Ebe E (set_err e self))) with e.
  change (conv_tol (set_Ebe E (set_err e self))) with (conv_tol self).
  change (max_space (set_Ebe E (set_err e self))) with (max_space self).
  change (pot (set_Ebe E (set_err e self))) with (pot self).
  rewrite Hlt. cbn [outcome_of state_of events_of fst snd].
  repeat split; auto.
  - count_events. rewrite Hoq, Hq. reflexivity.
  - rewrite <- !app_assoc. cbn [app]. rewrite <- !app_assoc. reflexivity.
Qed.

Lemma opening_lines (s : BEOPT) (ev : Event) :
  In ev (opening s) ->
  ev = Print rule \/ ev = Print "             Starting BE optimization " \/
  ev = PrintSolver (solver s) \/
  ev = Print "             Chemical Potential Optimization" \/ ev = PrintBlank.
Proof.
  unfold opening. destruct (only_chem s); cbn; intuition auto.
Qed.

Lemma evaluation_not_print (i : Z) (t : list Event) (line : string) :
  Forall (evaluation_at i) t -> ~ In (Print line) t.
Proof.
  intros Hev Hin. rewrite List.Forall_forall in Hev. exact (Hev _ Hin).
Qed.

Lemma optimize_budget J0 (tr : bool) (self : BEOPT) :
  (next_step_calls (events_of (optimize "QN" J0 tr self))
   <= Z.to_nat (max_space self))%nat /\
  (collaborators_succeed ->
   Forall (fun e => PrimFloat.ltb e (conv_tol self) = false)
     (reported_errors (events_of (optimize "QN" J0 tr self))) ->
   outcome_of (optimize "QN" J0 tr self) = Returned tt /\
   next_step_calls (events_of (optimize "QN" J0 tr self)) = Z.to_nat (max_space self) /\
   iter (state_of (optimize "QN" J0 tr self)) =
     iter self + Z.of_nat (Z.to_nat (max_space self)) /\
   ~ In (Print "CONVERGED") (events_of (optimize "QN" J0 tr self)) /\
   ~ In (Print "CONVERGED w/o Optimization Steps")
       (events_of (optimize "QN" J0 tr self))).
Proof.
  destruct (opening_quiet self) as (Hoc & Hor & Hoe & _).
  destruct (optimize_QN_run J0 tr self)
    as [(x & s1 & t0 & Hf & Hev & Hno & ->)
       |(f0 & s1 & t0 & Hf & Hev & _ & [[Hlt ->]|(Hlt & o & s2 & t' & Hrun & ->)])];
    destruct (evaluations_quiet _ _ Hev) as (Hq & Hr & He & _);
    cbn [outcome_of state_of events_of fst snd].
  - split; [count_events; rewrite Hoc, Hq; cbn; lia|]. intros Hc. contradiction.
  - split; [count_events; rewrite Hoc, Hq; cbn; lia|]. intros _.
    count_events. rewrite Hoe, He. cbn. intros Hall.
    apply Forall_cons in Hall as [Hall _]. congruence.
  - pose proof (loop_calls_bound _ _ _ _ _ _ Hrun) as Hb.
    split; [count_events; rewrite Hoc, Hq; cbn; lia|]. intros Hc.
    count_events. rewrite Hoe, He, Hoc, Hq. cbn [app Nat.add]. intros Hall.
    apply Forall_cons in Hall as [_ Hall].
    pose proof (only_results_differ_settings _ _ Hf) as Hs.
    destruct (loop_exhaust _ _ _ _ _ _ Hrun Hc) as (-> & Hn & Hcs & Hnb).
    { now rewrite (same_settings_conv_tol _ _ Hs). }
    destruct (loop_counter _ _ _ _ _ _ Hrun) as (_ & Hi & _).
    rewrite Hi, Hcs, (only_results_differ_iter _ _ Hf).
    assert (Hnw : ~ In (Print "CONVERGED w/o Optimization Steps") t').
    { clear -Hrun. induction Hrun as [s|n s s1 t x Hf Hev Hc|n s s1 t Hf Hev Hlt
                  |n s s1 t o s3 t' Hf Hev Hlt Hrun IH]; cbn; intros Hin.
      - exact Hin.
      - destruct Hin as [Hin|[Hin|Hin]]; try discriminate.
        exact (evaluation_not_print _ _ _ Hev Hin).
      - destruct Hin as [Hin|[Hin|Hin]]; try discriminate.
        apply in_app_or in Hin as [Hin|Hin];
          [exact (evaluation_not_print _ _ _ Hev Hin)|].
        cbn in Hin. intuition discriminate.
      - destruct Hin as [Hin|[Hin|Hin]]; try discriminate.
        apply in_app_or in Hin as [Hin|Hin];
          [exact (evaluation_not_print _ _ _ Hev Hin)|].
        cbn in Hin. destruct Hin as [Hin|[Hin|[Hin|Hin]]]; try discriminate. auto. }
    repeat split; auto.
    + intros Hin. apply in_app_or in Hin as [Hin|Hin].
      * apply in_app_or in Hin as [Hin|Hin].
        -- apply opening_lines in Hin. unfold rule in Hin. intuition discriminate.
        -- cbn in Hin. destruct Hin as [Hin|Hin]; [discriminate|].
           exact (evaluation_not_print _ _ _ Hev Hin).
      * cbn in Hin. destruct Hin as [Hin|[Hin|[Hin|Hin]]]; try discriminate. auto.
    + intros Hin. apply in_app_or in Hin as [Hin|Hin].
      * apply in_app_or in Hin as [Hin|Hin].
        -- apply opening_lines in Hin. unfold rule in Hin. intuition discriminate.
        -- cbn in Hin. destruct Hin as [Hin|Hin]; [discriminate|].
           exact (evaluation_not_print _ _ _ Hev Hin).
      * cbn in Hin. destruct Hin as [Hin|[Hin|[Hin|Hin]]]; try discriminate. auto.
Qed.


(** C5.  In a run of [optimize "QN"], every completed step is followed at
    once by the report of the scalar error; and wherever an error below
    [conv_tol] is reported no [next_step] call follows, the run ends
    normally with that error in [self.err], and, when at least one step
    had been made, what follows the report is exactly the ["CONVERGED"]
    banner. *)
Theorem optimize_stops_at_convergence J0 (tr : bool) (self : BEOPT) :
  (forall u1 u2,
     events_of (optimize "QN" J0 tr self) = u1 ++ NextStepReturned :: u2 ->
     exists e u3, u2 = PrintError e :: PrintBlank :: u3) /\
  (forall t1 e t2,
     events_of (optimize "QN" J0 tr self) = t1 ++ PrintError e :: t2 ->
     PrimFloat.ltb e (conv_tol self) = true ->
     next_step_calls t2 = 0%nat /\
     outcome_of (optimize "QN" J0 tr self) = Returned tt /\
     err (state_of (optimize "QN" J0 tr self)) = e /\
     ((0 < next_step_calls t1)%nat -> t2 = PrintBlank :: converged_banner)).
Proof.
  destruct (opening_quiet self) as (Hoc & _ & _ & _ & _ & Hoq & Hoq').
  destruct (optimize_QN_run J0 tr self)
    as [(x & s1 & t0 & Hf & Hev & Hno & ->)
       |(f0 & s1 & t0 & Hf & Hev & _ & [[Hlt ->]|(Hlt & o & s2 & t' & Hrun & ->)])];
    pose proof (evaluations_not is_error_report _ _
                  (fun _ => eq_refl) (fun _ => eq_refl) Hev) as Hq;
    pose proof (evaluations_not is_next_step_return _ _
                  (fun _ => eq_refl) (fun _ => eq_refl) Hev) as Hq';
    destruct (evaluations_quiet _ _ Hev) as (Hc0 & _);
    assert (Hpre : Forall (fun ev => is_error_report ev = false)
                     (opening self ++ PrintIter (iter self) :: t0))
      by (apply Forall_app; split; [exact Hoq|constructor; [reflexivity|exact Hq]]);
    assert (Hpre' : Forall (fun ev => is_next_step_return ev = false)
                      (opening self ++ PrintIter (iter self) :: t0))
      by (apply Forall_app; split; [exact Hoq'|constructor; [reflexivity|exact Hq']]);
    cbn [outcome_of state_of events_of fst snd]; split.
  - intros u1 u2 Heq. exfalso. revert Heq.
    now apply (no_cut is_next_step_return).
  - intros t1 e t2 Heq. exfalso. revert Heq. now apply (no_cut is_error_report).
  - intros u1 u2 Heq. exfalso. revert Heq.
    apply (no_cut is_next_step_return); [|reflexivity].
    apply Forall_app. split; [exact Hpre'|repeat constructor].
  - intros t1 e t2 Heq He.
    apply (split_past is_error_report) in Heq as (t1' & -> & Heq);
      [|exact Hpre|reflexivity].
    destruct t1' as [|b t1']; injection Heq as Hb Heq.
    + subst e t2. repeat split; auto.
      count_events. rewrite Hoc, Hc0. cbn. lia.
    + exfalso. revert Heq. apply (no_cut is_error_report); [|reflexivity].
      repeat constructor.
  - intros u1 u2 Heq.
    apply (split_past is_next_step_return) in Heq as (u1' & -> & Heq);
      [|exact Hpre'|reflexivity].
    destruct u1' as [|b1 u1']; [discriminate|]. injection Heq as _ Heq.
    destruct u1' as [|b2 u1']; [discriminate|]. injection Heq as _ Heq.
    destruct u1' as [|b3 u1']; [discriminate|]. injection Heq as _ Heq.
    exact (loop_report_after_step _ _ _ _ _ _ Hrun _ _ Heq).
  - intros t1 e t2 Heq He.
    pose proof (same_settings_conv_tol _ _ (only_results_differ_settings _ _ Hf)) as Htol.
    apply (split_past is_error_report) in Heq as (t1' & -> & Heq);
      [|exact Hpre|reflexivity].
    destruct t1' as [|b t1']; injection Heq as Hb Heq.
    + subst e. rewrite Hlt in He. discriminate.
    + destruct t1' as [|b2 t1']; [discriminate|]. injection Heq as _ Heq.
      destruct t1' as [|b3 t1']; [discriminate|]. injection Heq as _ Heq.
      destruct (loop_stop _ _ _ _ _ _ Hrun t1' e t2 Heq) as (-> & -> & <- & _).
      { now rewrite Htol. }
      repeat split; auto.
Qed.

Lemma iter_consistent_at (i : Z) (t t1 : list Event) (ev : Event)
    (t2 : list Event) (j : Z) :
  iter_consistent i t -> t = t1 ++ ev :: t2 -> observed_iter ev = Some j ->
  j = i + Z.of_nat (completed_steps t1).
Proof.
  intros Hc -> Hj. apply iter_consistent_app in Hc as [_ Hc].
  cbn [iter_consistent] in Hc. rewrite Hj in Hc. tauto.
Qed.

(** C6 (as amended).  During and after [optimize "QN"] the iteration counter
    is its value at the call (0 for a new instance) plus the number of
    [next_step] calls completed so far: every iteration number the run
    prints or passes to an evaluation as [be_iter] is that sum, and so is
    the final counter.  The calls started are the calls completed, or one
    more while a step is in progress or after a step raised; after a normal
    return the counter has grown by exactly the number of calls made. *)
Theorem iter_counts_completed_steps J0 (tr : bool) (self : BEOPT) :
  (forall t1 ev t2 i,
     events_of (optimize "QN" J0 tr self) = t1 ++ ev :: t2 ->
     observed_iter ev = Some i ->
     i = iter self + Z.of_nat (completed_steps t1)) /\
  iter (state_of (optimize "QN" J0 tr self)) =
    iter self + Z.of_nat (completed_steps (events_of (optimize "QN" J0 tr self))) /\
  (completed_steps (events_of (optimize "QN" J0 tr self))
   <= next_step_calls (events_of (optimize "QN" J0 tr self))
   <= completed_steps (events_of (optimize "QN" J0 tr self)) + 1)%nat /\
  (outcome_of (optimize "QN" J0 tr self) = Returned tt ->
   iter (state_of (optimize "QN" J0 tr self)) =
     iter self + Z.of_nat (next_step_calls (events_of (optimize "QN" J0 tr self)))).
Proof.
  destruct (opening_quiet self) as (Hoc & Hor & _ & _ & Hoi & _).
  assert (Hgoal :
    iter_consistent (iter self) (events_of (optimize "QN" J0 tr self)) /\
    iter (state_of (optimize "QN" J0 tr self)) =
      iter self + Z.of_nat (completed_steps (events_of (optimize "QN" J0 tr self))) /\
    (completed_steps (events_of (optimize "QN" J0 tr self))
     <= next_step_calls (events_of (optimize "QN" J0 tr self))
     <= completed_steps (events_of (optimize "QN" J0 tr self)) + 1)%nat /\
    (outcome_of (optimize "QN" J0 tr self) = Returned tt ->
     next_step_calls (events_of (optimize "QN" J0 tr self)) =
     completed_steps (events_of (optimize "QN" J0 tr self)))).
  { destruct (optimize_QN_run J0 tr self)
      as [(x & s1 & t0 & Hf & Hev & Hno & Heq)
         |(f0 & s1 & t0 & Hf & Hev & Hobj & [[Hlt Heq]|(Hlt & o & s2 & t' & Hrun & Heq)])];
      destruct (evaluations_quiet _ _ Hev) as (Hq & Hr & _ & _ & Hi & _);
      rewrite Heq; cbn [outcome_of state_of events_of fst snd].
    - rewrite (only_results_differ_iter _ _ Hf).
      rewrite !iter_consistent_app. count_events. rewrite Hoc, Hor, Hq, Hr.
      cbn [iter_consistent observed_iter is_next_step_return Nat.add].
      change (Z.of_nat 0) with 0. rewrite !Z.add_0_r.
      repeat split; auto; try lia; try apply Hoi; try discriminate.
    - rewrite (only_results_differ_iter _ _ Hf).
      rewrite !iter_consistent_app. count_events. rewrite Hoc, Hor, Hq, Hr.
      cbn [iter_consistent observed_iter is_next_step_return Nat.add immediate_banner].
      change (Z.of_nat 0) with 0. rewrite !Z.add_0_r.
      repeat split; auto; try lia; try apply Hoi; try (cbn; lia).
    - destruct (loop_counter _ _ _ _ _ _ Hrun) as (Hc & Hit & Hb & Ho & _).
      rewrite (only_results_differ_iter _ _ Hf) in Hc, Hit.
      rewrite !iter_consistent_app. count_events. rewrite Hoc, Hor, Hq, Hr.
      cbn [iter_consistent observed_iter is_next_step_return Nat.add].
      change (Z.of_nat 0) with 0. rewrite !Z.add_0_r.
      repeat split; auto; try lia; try apply Hoi. }
  destruct Hgoal as (Hc & Hi & Hb & Ho). repeat split; auto; try lia.
  - intros t1 ev t2 i Heq Hobs. exact (iter_consistent_at _ _ _ _ _ _ Hc Heq Hobs).
  - intros Hret. rewrite Hi, (Ho Hret). reflexivity.
Qed.

Lemma optimize_history_bound J0 (tr : bool) (s : BEOPT) :
  Forall (fun ms => ms = max_space s)
    (history_bounds (events_of (optimize "QN" J0 tr s))) /\
  (collaborators_succeed ->
   history_bounds (events_of (optimize "QN" J0 tr s)) = [max_space s]).
Proof.
  destruct (opening_quiet s) as (_ & _ & _ & Hoh & _).
  destruct (optimize_QN_run J0 tr s)
    as [(x & s1 & t0 & Hf & Hev & Hno & ->)
       |(f0 & s1 & t0 & Hf & Hev & _ & [[Hlt ->]|(Hlt & o & s2 & t' & Hrun & ->)])];
    destruct (evaluations_quiet _ _ Hev) as (_ & _ & _ & Hh & _);
    cbn [events_of snd]; count_events; rewrite Hoh, Hh; cbn [app].
  - split; [constructor|]. intros Hc. contradiction.
  - split; [repeat constructor|reflexivity].
  - destruct (loop_counter _ _ _ _ _ _ Hrun) as (_ & _ & _ & _ & ->).
    split; [repeat constructor|reflexivity].
Qed.


End DriverFacts.

(** ** The claims at work on the small instance *)

Import Demo.

Lemma halving_succeeds : collaborators_succeed.
Proof.
  repeat split.
  - intros a. eexists. reflexivity.
  - intros a. eexists. reflexivity.
Qed.

Lemma one_is_not_half : [1%float] <> [0.5%float].
Proof.
  intros Heq.
  apply (f_equal (fun l => PrimFloat.ltb (List.hd 0%float l) 1%float)) in Heq.
  vm_compute in Heq. discriminate.
Qed.

(** C1, witness: an evaluation at [0.5] on an instance whose potential is
    [1.0]. *)
Lemma objfunc_stores_error_and_energy_witness :
  outcome_of (objfunc [0.5%float] (instance [1%float] 1 10 0.2%float))
    = Returned [0.5%float] /\
  err (state_of (objfunc [0.5%float] (instance [1%float] 1 10 0.2%float))) = 0.5%float /\
  pot (state_of (objfunc [0.5%float] (instance [1%float] 1 10 0.2%float))) = [1%float].
Proof.
  destruct (objfunc_stores_error_and_energy [0.5%float]
              (instance [1%float] 1 10 0.2%float) 0.5%float [0.5%float] 0%float)
    as (Ho & He & _ & Hp & _); [reflexivity|].
  repeat split; assumption.
Defined.

(** C1, counterexample to the claim as stated: after [objfunc([0.5])] the
    stored potential is still [[1.0]], not the potential evaluated. *)
Lemma objfunc_updates_pot_counterexample :
  outcome_of (objfunc [0.5%float] (instance [1%float] 1 10 0.2%float))
    = Returned [0.5%float] /\
  pot (state_of (objfunc [0.5%float] (instance [1%float] 1 10 0.2%float))) = [1%float] /\
  pot (state_of (objfunc [0.5%float] (instance [1%float] 1 10 0.2%float))) <> [0.5%float].
Proof.
  repeat split. exact one_is_not_half.
Qed.

(** C2, witness. *)
Lemma optimize_unsupported_exits_witness :
  outcome_of (optimize "UNSUPPORTED" None false (instance [1%float] 1 10 0.2%float))
    = Raised (SystemExit None) /\
  exit_status
    (outcome_of (optimize "UNSUPPORTED" None false (instance [1%float] 1 10 0.2%float))) = 0.
Proof.
  destruct (optimize_unsupported_exits "UNSUPPORTED" None false
              (instance [1%float] 1 10 0.2%float)) as (Ho & Hx & _);
    [discriminate|].
  split; assumption.
Defined.

(** C2, counterexample to the claim as stated: the exit status of the
    unsupported-method path is not non-zero. *)
Lemma optimize_unsupported_status_counterexample :
  ~ exit_status
      (outcome_of (optimize "UNSUPPORTED" None false (instance [1%float] 1 10 0.2%float)))
    <> 0.
Proof. intros Hne. apply Hne. reflexivity. Qed.

(** C3, witness: the initial error 0.125 is below the tolerance 0.2. *)
Lemma optimize_converged_without_steps_witness :
  outcome_of (optimize "QN" None false (instance [0.125%float] 1 10 0.2%float))
    = Returned tt /\
  next_step_calls
    (events_of (optimize "QN" None false (instance [0.125%float] 1 10 0.2%float))) = 0%nat /\
  iter (state_of (optimize "QN" None false (instance [0.125%float] 1 10 0.2%float))) = 0.
Proof.
  destruct (optimize_converged_without_steps None false
              (instance [0.125%float] 1 10 0.2%float)
              0.125%float [0.125%float] 0%float)
    as (Ho & Hn & Hi & _); [reflexivity|reflexivity|].
  repeat split; assumption.
Defined.


(** C7, witness: two worker processes and [hci_pt = True].  The parallel
    call made is the one an instance with [hci_pt = False] makes; the
    serial call would carry [hci_pt = True]. *)
Lemma dispatch_by_nproc_witness :
  dispatch [1%float] (with_hci_pt true (instance [1%float] 2 10 0.2%float)) =
  (be_func_parallel (parallel_call [1%float] (instance [1%float] 2 10 0.2%float)),
   with_hci_pt true (instance [1%float] 2 10 0.2%float),
   [CallBeFuncParallel (parallel_call [1%float] (instance [1%float] 2 10 0.2%float))]) /\
  sc_hci_pt (serial_call [1%float] (with_hci_pt true (instance [1%float] 2 10 0.2%float)))
    = true /\
  sc_hci_pt (serial_call [1%float] (instance [1%float] 2 10 0.2%float)) = false.
Proof.
  destruct (dispatch_by_nproc [1%float]
              (with_hci_pt true (instance [1%float] 2 10 0.2%float)))
    as (_ & Hp & _ & _ & _ & _).
  destruct (dispatch_by_nproc [1%float] (instance [1%float] 2 10 0.2%float))
    as (_ & _ & _ & _ & Hb & _).
  destruct (Hb true) as (Hs & Hc & _).
  split; [|split; [exact Hs|reflexivity]].
  rewrite (Hp ltac:(cbn; lia)), Hc. reflexivity.
Defined.


(** C5, witness: from potential 1 the errors are 1, 0.5, 0.25 and 0.125;
    the report of 0.125 is the 27th event and the ["CONVERGED"] banner
    follows it. *)
Lemma optimize_stops_at_convergence_witness :
  skipn 27 (events_of (optimize "QN" None false (instance [1%float] 1 10 0.2%float)))
    = PrintBlank :: converged_banner /\
  outcome_of (optimize "QN" None false (instance [1%float] 1 10 0.2%float)) = Returned tt /\
  next_step_calls
    (skipn 27 (events_of (optimize "QN" None false (instance [1%float] 1 10 0.2%float))))
    = 0%nat.
Proof.
  destruct (optimize_stops_at_convergence None false (instance [1%float] 1 10 0.2%float))
    as [_ Hstop].
  destruct (Hstop
              (firstn 26 (events_of (optimize "QN" None false
                                       (instance [1%float] 1 10 0.2%float))))
              0.125%float
              (skipn 27 (events_of (optimize "QN" None false
                                      (instance [1%float] 1 10 0.2%float)))))
    as (Hn & Ho & _ & Hb); [vm_compute; reflexivity|reflexivity|].
  split; [apply Hb; vm_compute; lia|]. split; assumption.
Defined.

(** C6, witness: the evaluation made inside the first step (the 13th
    event) carries [be_iter = 0], the number of steps completed before
    it. *)
Lemma iter_counts_completed_steps_witness :
  0 = iter (instance [1%float] 1 10 0.2%float) +
      Z.of_nat
        (completed_steps
           (firstn 12 (events_of (optimize "QN" None false
                                    (instance [1%float] 1 10 0.2%float))))).
Proof.
  destruct (iter_counts_completed_steps None false (instance [1%float] 1 10 0.2%float))
    as [Hobs _].
  apply (Hobs _
           (CallBeFunc (serial_call [0.5%float] (instance [1%float] 1 10 0.2%float)))
           (skipn 13 (events_of (optimize "QN" None false
                                   (instance [1%float] 1 10 0.2%float)))));
    vm_compute; reflexivity.
Defined.

(** C6, counterexample to the claim as stated: when the evaluation inside
    the first step is made, one [next_step] call has been made and the
    counter (passed as [be_iter]) is still 0. *)
Lemma iter_equals_calls_counterexample :
  ~ (forall t1 ev t2 i,
       events_of (optimize "QN" None false (instance [1%float] 1 10 0.2%float))
         = t1 ++ ev :: t2 ->
       observed_iter ev = Some i ->
       i = iter (instance [1%float] 1 10 0.2%float) + Z.of_nat (next_step_calls t1)).
Proof.
  intros Hall.
  assert (Hlag :
    0 = iter (instance [1%float] 1 10 0.2%float) +
        Z.of_nat (next_step_calls
          (firstn 12 (events_of (optimize "QN" None false
                                   (instance [1%float] 1 10 0.2%float)))))).
  { apply (Hall _
             (CallBeFunc (serial_call [0.5%float] (instance [1%float] 1 10 0.2%float)))
             (skipn 13 (events_of (optimize "QN" None false
                                     (instance [1%float] 1 10 0.2%float)))));
      vm_compute; reflexivity. }
  vm_compute in Hlag. discriminate.
Qed.

(** * The claims about scratch directories *)

Import ManageScratch.

Lemma path_exists_true (p : string) (fs : FS) :
  path_exists p fs = true <-> is_Some (fs !! p).
Proof. unfold path_exists. apply bool_decide_eq_true. Qed.

Lemma path_exists_false (p : string) (fs : FS) :
  path_exists p fs = false <-> fs !! p = None.
Proof.
  unfold path_exists. rewrite bool_decide_eq_false. symmetry. apply eq_None_not_Some.
Qed.

Lemma cleanup_present (w : WorkDir) (fs : FS) :
  is_Some (fs !! path w) -> cleanup w fs = (Returned tt, delete (path w) fs).
Proof. intros [files Hf]. unfold cleanup. now rewrite Hf. Qed.

Lemma cleanup_absent (w : WorkDir) (fs : FS) :
  fs !! path w = None -> cleanup w fs = (Raised (PyError "FileNotFoundError"), fs).
Proof. intros Hf. unfold cleanup. now rewrite Hf. Qed.

Lemma mkdtemp_new (fs : FS) :
  fs !! fst (mkdtemp fs) = None /\
  snd (mkdtemp fs) = <[fst (mkdtemp fs) := ∅]> fs.
Proof.
  unfold mkdtemp. cbn. split; [|reflexivity].
  apply not_elem_of_dom. apply is_fresh.
Qed.

Lemma WorkDir_on_empty (p : string) (fs : FS) :
  fs !! p = Some ∅ -> WorkDir__init__ p fs = (Returned (mkWorkDir p), fs).
Proof.
  intros Hp. unfold WorkDir__init__. rewrite Hp.
  destruct (decide _) as [_|Hne]; [reflexivity|]. now destruct Hne.
Qed.

(** C8.  Once a cleanup has removed the location, a second cleanup of the
    same location raises [FileNotFoundError], which [pytest.raises]
    detects; nothing else changes. *)
Theorem cleanup_twice_raises (w : WorkDir) (fs : FS) :
  is_Some (fs !! path w) ->
  cleanup w fs = (Returned tt, delete (path w) fs) /\
  path_exists (path w) (delete (path w) fs) = false /\
  cleanup w (delete (path w) fs) =
    (Raised (PyError "FileNotFoundError"), delete (path w) fs) /\
  raises "FileNotFoundError" (cleanup w) (delete (path w) fs) =
    (Returned tt, delete (path w) fs).
Proof.
  intros Hp. pose proof (lookup_delete_eq fs (path w)) as Hd.
  split; [now apply cleanup_present|].
  split; [now apply path_exists_false|].
  split; [now apply cleanup_absent|].
  unfold raises. rewrite (cleanup_absent _ _ Hd). reflexivity.
Qed.

(** The test [test_already_created] passes on every file system. *)
Lemma test_already_created_passes (fs : FS) :
  fst (test_already_created fs) = Returned tt.
Proof.
  unfold test_already_created.
  destruct (mkdtemp_new fs) as [Hnew Hfs].
  destruct (mkdtemp fs) as [my_tmp fs0]. cbn [fst snd] in Hnew, Hfs. subst fs0.
  assert (Hin : (<[my_tmp := ∅]> fs : FS) !! my_tmp = Some ∅) by apply lookup_insert_eq.
  unfold io_bind, assert.
  rewrite (proj2 (path_exists_true _ _)) by (rewrite Hin; eauto).
  rewrite (WorkDir_on_empty _ _ Hin).
  rewrite cleanup_present by (cbn; rewrite Hin; eauto). cbn [path].
  rewrite (proj2 (path_exists_false _ _)) by apply lookup_delete_eq.
  cbn [negb]. unfold raises.
  rewrite cleanup_absent by apply lookup_delete_eq. reflexivity.
Qed.

(** C9.  For a block run under [with WorkDir(p)]: the location exists when
    the block starts; when the block returns (and has left the location in
    place) the location is removed and the block's value returned; when the
    block raises, the file system is left exactly as the block left it and
    the same exception reaches the caller. *)
Theorem with_WorkDir_releases_or_keeps {A : Type} (p : string)
    (body : WorkDir -> IO A) (fs : FS) (w : WorkDir) (fs1 : FS) :
  WorkDir__init__ p fs = (Returned w, fs1) ->
  path_exists p fs1 = true /\
  (forall a fs2,
     body w fs1 = (Returned a, fs2) -> is_Some (fs2 !! p) ->
     with_WorkDir p body fs = (Returned a, delete p fs2) /\
     path_exists p (delete p fs2) = false) /\
  (forall e fs2,
     body w fs1 = (Raised e, fs2) ->
     with_WorkDir p body fs = (Raised e, fs2) /\
     (is_Some (fs2 !! p) -> path_exists p (snd (with_WorkDir p body fs)) = true)).
Proof.
  intros Hinit.
  assert (Hw : path w = p /\ is_Some (fs1 !! p)).
  { unfold WorkDir__init__ in Hinit. destruct (fs !! p) as [files|] eqn:Hp.
    - destruct (decide (files = ∅)); [|discriminate].
      injection Hinit as <- <-. cbn. rewrite Hp. eauto.
    - injection Hinit as <- <-. cbn. rewrite lookup_insert_eq. eauto. }
  destruct Hw as [Hpath Hex].
  split; [now apply path_exists_true|]. split.
  - intros a fs2 Hbody Hthere. unfold with_WorkDir. rewrite Hinit, Hbody.
    rewrite cleanup_present by now rewrite Hpath.
    rewrite Hpath. split; [reflexivity|].
    apply path_exists_false, lookup_delete_eq.
  - intros e fs2 Hbody. unfold with_WorkDir. rewrite Hinit, Hbody.
    split; [reflexivity|].
    intros Hthere. now apply path_exists_true.
Qed.

(** The tests [test_keep_upon_error] and [test_context_manager] pass on
    every file system. *)
Lemma test_context_manager_passes (fs : FS) :
  fst (test_context_manager fs) = Returned tt.
Proof.
  unfold test_context_manager.
  destruct (mkdtemp_new fs) as [Hnew Hfs].
  destruct (mkdtemp fs) as [my_tmp fs0]. cbn [fst snd] in Hnew, Hfs. subst fs0.
  assert (Hin : (<[my_tmp := ∅]> fs : FS) !! my_tmp = Some ∅) by apply lookup_insert_eq.
  unfold io_bind, assert, with_WorkDir.
  rewrite (proj2 (path_exists_true _ _)) by (rewrite Hin; eauto).
  rewrite (WorkDir_on_empty _ _ Hin).
  rewrite cleanup_present by (cbn; rewrite Hin; eauto). cbn [path].
  rewrite (proj2 (path_exists_false _ _)) by apply lookup_delete_eq.
  reflexivity.
Qed.

Lemma test_keep_upon_error_passes (fs : FS) :
  fst (test_keep_upon_error fs) = Returned tt.
Proof.
  unfold test_keep_upon_error.
  destruct (mkdtemp_new fs) as [Hnew Hfs].
  destruct (mkdtemp fs) as [my_tmp fs0]. cbn [fst snd] in Hnew, Hfs. subst fs0.
  assert (Hin : (<[my_tmp := ∅]> fs : FS) !! my_tmp = Some ∅) by apply lookup_insert_eq.
  unfold io_bind, assert, with_WorkDir, raises.
  rewrite (proj2 (path_exists_true _ _)) by (rewrite Hin; eauto).
  rewrite (WorkDir_on_empty _ _ Hin). cbn [String.eqb Ascii.eqb Bool.eqb].
  rewrite (proj2 (path_exists_true _ _)) by (rewrite Hin; eauto).
  rewrite (WorkDir_on_empty _ _ Hin).
  rewrite cleanup_present by (cbn; rewrite Hin; eauto). cbn [path].
  rewrite (proj2 (path_exists_false _ _)) by apply lookup_delete_eq.
  reflexivity.
Qed.

Lemma test_already_created_non_empty_passes (fs : FS) :
  fst (test_already_created_non_empty fs) = Returned tt.
Proof.
  unfold test_already_created_non_empty.
  destruct (mkdtemp_new fs) as [Hnew Hfs].
  destruct (mkdtemp fs) as [my_tmp fs0]. cbn [fst snd] in Hnew, Hfs. subst fs0.
  assert (Hin : (<[my_tmp := ∅]> fs : FS) !! my_tmp = Some ∅) by apply lookup_insert_eq.
  unfold io_bind, assert, with_WorkDir, raises, touch, WorkDir__init__.
  rewrite (proj2 (path_exists_true _ _)) by (rewrite Hin; eauto).
  rewrite Hin. rewrite lookup_insert_eq.
  destruct (decide (<["testfile" := ""]> (∅ : gmap string string) = ∅)) as [Hempty|_].
  - exfalso. apply (f_equal (fun m => m !! "testfile")) in Hempty.
    rewrite lookup_insert_eq, lookup_empty in Hempty. discriminate.
  - cbn [String.eqb Ascii.eqb Bool.eqb].
    rewrite (proj2 (path_exists_true _ _)) by (rewrite lookup_insert_eq; eauto).
    reflexivity.
Qed.

(** C8, witness: one empty scratch directory. *)
Lemma cleanup_twice_raises_witness :
  cleanup (mkWorkDir "/scratch/run") (delete "/scratch/run" ({["/scratch/run" := ∅]} : FS))
  = (Raised (PyError "FileNotFoundError"),
     delete "/scratch/run" ({["/scratch/run" := ∅]} : FS)).
Proof.
  destruct (cleanup_twice_raises (mkWorkDir "/scratch/run")
              ({["/scratch/run" := ∅]} : FS)) as (_ & _ & Htwice & _).
  - cbn. rewrite lookup_singleton_eq. eauto.
  - exact Htwice.
Defined.

(** C9, witness: a block that raises [ValueError] in an empty scratch
    directory. *)
Lemma with_WorkDir_releases_or_keeps_witness :
  with_WorkDir "/scratch/run"
    (fun _ f => (@Raised unit (PyError "ValueError"), f))
    ({["/scratch/run" := ∅]} : FS)
  = (Raised (PyError "ValueError"), ({["/scratch/run" := ∅]} : FS)).
Proof.
  destruct (with_WorkDir_releases_or_keeps "/scratch/run"
              (fun _ f => (@Raised unit (PyError "ValueError"), f))
              ({["/scratch/run" := ∅]} : FS)
              (mkWorkDir "/scratch/run") ({["/scratch/run" := ∅]} : FS))
    as (_ & _ & Hkeep).
  - apply WorkDir_on_empty. apply lookup_singleton_eq.
  - destruct (Hkeep (PyError "ValueError") ({["/scratch/run" := ∅]} : FS) eq_refl)
      as [Hres _]. exact Hres.
Defined.

(** * Further properties of the driver *)

Section DriverMore.
Context {PL : Payload} {EX : External}.

Ltac by_record :=
  intros; unfold only_results_differ, same_settings in *;
  repeat match goal with s : BEOPT |- _ => destruct s end;
  unfold set_Ebe, set_err, set_iter in *; cbn in *;
  repeat match goal with E : mkBEOPT _ _ _ _ _ _ _ _ _ _ _ _ _ _ _ _ _ _ _ _ _ _ _ = _ |- _ =>
    injection E as; subst end;
  reflexivity.

Ltac tally :=
  unfold converged_banner, immediate_banner;
  repeat progress
    (rewrite ?next_step_calls_cons, ?next_step_calls_app,
             ?completed_steps_cons, ?completed_steps_app,
             ?reported_errors_app, ?history_bounds_app;
     cbn [is_next_step_call is_next_step_return reported_errors history_bounds
          app Nat.add]).

(** ** The objective function *)

Lemma serial_call_ignores_results (xk : list float) (s s1 : BEOPT) :
  only_results_differ s s1 -> serial_call xk s1 = serial_call xk s.
Proof. unfold serial_call. by_record. Qed.

Lemma parallel_call_ignores_results (xk : list float) (s s1 : BEOPT) :
  only_results_differ s s1 -> parallel_call xk s1 = parallel_call xk s.
Proof. unfold parallel_call. by_record. Qed.

Lemma nproc_ignores_results (s s1 : BEOPT) :
  only_results_differ s s1 -> nproc s1 = nproc s.
Proof. by_record. Qed.

Lemma dispatch_ignores_results (xk : list float) (s s1 : BEOPT) :
  only_results_differ s s1 ->
  outcome_of (dispatch xk s1) = outcome_of (dispatch xk s) /\
  events_of (dispatch xk s1) = events_of (dispatch xk s).
Proof.
  intros Hf. unfold dispatch.
  rewrite (nproc_ignores_results _ _ Hf), (serial_call_ignores_results _ _ _ Hf),
    (parallel_call_ignores_results _ _ _ Hf).
  destruct (nproc s =? 1); split; reflexivity.
Qed.

(** X1.  When the evaluation routine raises, [objfunc] raises the same
    exception and the object is left as it was: [err] and [Ebe] keep the
    values of the last evaluation that returned. *)
Theorem objfunc_raises_unchanged (xk : list float) (self : BEOPT) (x : PyExn) :
  outcome_of (dispatch xk self) = Raised x ->
  outcome_of (objfunc xk self) = Raised x /\
  state_of (objfunc xk self) = self /\
  events_of (objfunc xk self) = events_of (dispatch xk self).
Proof.
  intros Hd. rewrite objfunc_eq, Hd. repeat split.
Qed.

Lemma store_twice (s : BEOPT) (e1 E1 e2 E2 : float) :
  set_Ebe E2 (set_err e2 (set_Ebe E1 (set_err e1 s))) = set_Ebe E2 (set_err e2 s).
Proof. by_record. Qed.

(** X2.  What [objfunc] does is independent of the error and energy stored
    by an earlier call: after [objfunc(x1)], a call [objfunc(x2)] makes the
    same evaluation call and has the same outcome as [objfunc(x2)] alone,
    and when the evaluation returns it leaves the same object: the second
    result overwrites the first. *)
Theorem objfunc_last_wins (x1 x2 : list float) (self : BEOPT)
    (e1 : float) (v1 : list float) (E1 : float) :
  outcome_of (dispatch x1 self) = Returned (e1, v1, E1) ->
  outcome_of (objfunc x2 (state_of (objfunc x1 self))) = outcome_of (objfunc x2 self) /\
  events_of (objfunc x2 (state_of (objfunc x1 self))) = events_of (objfunc x2 self) /\
  (forall e2 v2 E2,
     outcome_of (dispatch x2 self) = Returned (e2, v2, E2) ->
     state_of (objfunc x2 (state_of (objfunc x1 self))) = set_Ebe E2 (set_err e2 self) /\
     state_of (objfunc x2 self) = set_Ebe E2 (set_err e2 self)).
Proof.
  intros Hd. rewrite (objfunc_returned _ _ _ _ _ Hd). cbn [state_of fst snd].
  pose proof (only_results_differ_store self e1 E1) as Hf.
  destruct (dispatch_ignores_results x2 _ _ Hf) as [Ho Hev].
  rewrite !objfunc_eq, Ho, Hev.
  destruct (outcome_of (dispatch x2 self)) as [[[e v] E]|x]; cbn.
  - split; [reflexivity|]. split; [reflexivity|].
    intros e2 v2 E2 Heq. injection Heq as -> -> ->.
    split; [apply store_twice|reflexivity].
  - split; [reflexivity|]. split; [reflexivity|].
    intros e2 v2 E2 Heq. discriminate.
Qed.

(** ** Failures during a run *)

Lemma loop_returns (tr : bool) n s o s' t :
  LoopRun tr n s o s' t -> collaborators_succeed -> o = Returned tt.
Proof.
  induction 1 as [s|n s s1 t x Hf Hev Hc|n s s1 t Hf Hev Hlt
                  |n s s1 t o s3 t' Hf Hev Hlt Hrun IH]; intros Hok; auto.
  contradiction.
Qed.

Lemma loop_no_immediate_banner (tr : bool) n s o s' t :
  LoopRun tr n s o s' t -> ~ In (Print "CONVERGED w/o Optimization Steps") t.
Proof.
  induction 1 as [s|n s s1 t x Hf Hev Hc|n s s1 t Hf Hev Hlt
                  |n s s1 t o s3 t' Hf Hev Hlt Hrun IH]; cbn; intros Hin.
  - exact Hin.
  - destruct Hin as [Hin|[Hin|Hin]]; try discriminate.
    exact (evaluation_not_print _ _ _ Hev Hin).
  - destruct Hin as [Hin|[Hin|Hin]]; try discriminate.
    apply in_app_or in Hin as [Hin|Hin];
      [exact (evaluation_not_print _ _ _ Hev Hin)|].
    cbn in Hin. intuition discriminate.
  - destruct Hin as [Hin|[Hin|Hin]]; try discriminate.
    apply in_app_or in Hin as [Hin|Hin];
      [exact (evaluation_not_print _ _ _ Hev Hin)|].
    cbn in Hin. destruct Hin as [Hin|[Hin|[Hin|Hin]]]; try discriminate. auto.
Qed.

Lemma loop_raised_shape (tr : bool) n s o s' t (x : PyExn) :
  LoopRun tr n s o s' t -> o = Raised x ->
  next_step_calls t = S (completed_steps t) /\ ~ In (Print "CONVERGED") t.
Proof.
  induction 1 as [s|n s s1 t x' Hf Hev Hc|n s s1 t Hf Hev Hlt
                  |n s s1 t o s3 t' Hf Hev Hlt Hrun IH]; intros Ho;
    try discriminate;
    destruct (evaluations_quiet _ _ Hev) as (Hq & Hr & _).
  - tally. rewrite Hq, Hr. split; [reflexivity|].
    cbn. intros [Hin|[Hin|Hin]]; try discriminate.
    exact (evaluation_not_print _ _ _ Hev Hin).
  - destruct (IH Ho) as [IHn IHb]. tally. rewrite Hq, Hr, IHn.
    split; [cbn; lia|].
    cbn. intros [Hin|[Hin|Hin]]; try discriminate.
    apply in_app_or in Hin as [Hin|Hin];
      [exact (evaluation_not_print _ _ _ Hev Hin)|].
    cbn in Hin. destruct Hin as [Hin|[Hin|[Hin|Hin]]]; try discriminate. auto.
Qed.

Lemma opening_no_banner (s : BEOPT) (t0 : list Event) (i : Z) (line : string) :
  Forall (evaluation_at i) t0 ->
  line = "CONVERGED" \/ line = "CONVERGED w/o Optimization Steps" ->
  ~ In (Print line) (opening s ++ PrintIter (iter s) :: t0).
Proof.
  intros Hev Hline Hin. apply in_app_or in Hin as [Hin|Hin].
  - apply opening_lines in Hin. unfold rule in Hin.
    destruct Hline as [-> | ->]; intuition discriminate.
  - cbn in Hin. destruct Hin as [Hin|Hin]; [discriminate|].
    exact (evaluation_not_print _ _ _ Hev Hin).
Qed.

(** X3.  When the evaluation of the initial potential raises, [optimize]
    raises the same exception at once: the object is unchanged, the driver
    is not built and no step is made. *)
Theorem optimize_initial_failure J0 (tr : bool) (self : BEOPT) (x : PyExn) :
  outcome_of (dispatch (pot self) self) = Raised x ->
  optimize "QN" J0 tr self =
    (Raised x, self,
     opening self ++ PrintIter (iter self) :: events_of (dispatch (pot self) self)) /\
  next_step_calls (events_of (optimize "QN" J0 tr self)) = 0%nat /\
  driver_builds (events_of (optimize "QN" J0 tr self)) = [].
Proof.
  intros Hd. rewrite optimize_QN_eq, objfunc_eq, Hd. cbn [events_of snd].
  destruct (opening_quiet self) as (Hoc & _).
  destruct (evaluations_quiet _ _ (dispatch_events (pot self) self)) as (Hq & _).
  split; [reflexivity|]. split.
  - tally. fold (events_of (dispatch (pot self) self)). rewrite Hoc, Hq. reflexivity.
  - fold (events_of (dispatch (pot self) self)).
    pose proof (dispatch_events (pot self) self) as Hev.
    assert (Hb : forall t, Forall (evaluation_at (iter self)) t -> driver_builds t = []).
    { induction 1 as [|ev t Hev1 _ IH]; [reflexivity|].
      destruct ev; cbn in Hev1; try contradiction; exact IH. }
    assert (Happ : forall t1 t2, driver_builds (t1 ++ t2) = driver_builds t1 ++ driver_builds t2).
    { induction t1 as [|ev t1 IH]; intros t2; [reflexivity|].
      destruct ev; cbn [app driver_builds]; now rewrite IH. }
    rewrite Happ. cbn [driver_builds]. rewrite (Hb _ Hev), app_nil_r.
    unfold opening. destruct (only_chem self); reflexivity.
Qed.

Lemma optimize_QN_returns J0 (tr : bool) (self : BEOPT) :
  collaborators_succeed ->
  outcome_of (optimize "QN" J0 tr self) = Returned tt.
Proof.
  intros Hok.
  destruct (optimize_QN_run J0 tr self)
    as [(x & s1 & t0 & Hf & Hev & Hno & ->)
       |(f0 & s1 & t0 & Hf & Hev & _ & [[Hlt ->]|(Hlt & o & s2 & t' & Hrun & ->)])];
    cbn [outcome_of fst].
  - contradiction.
  - reflexivity.
  - exact (loop_returns _ _ _ _ _ _ Hrun Hok).
Qed.


(** X5.  A run that raises prints no convergence banner, and it stops
    where the exception occurred: either in the initial evaluation, before
    any step, or inside a step, whose increment of the counter is then not
    made (one more call started than completed). *)
Theorem optimize_raised_shape J0 (tr : bool) (self : BEOPT) (x : PyExn) :
  outcome_of (optimize "QN" J0 tr self) = Raised x ->
  ~ banner_printed (events_of (optimize "QN" J0 tr self)) /\
  (next_step_calls (events_of (optimize "QN" J0 tr self)) = 0%nat \/
   next_step_calls (events_of (optimize "QN" J0 tr self)) =
     S (completed_steps (events_of (optimize "QN" J0 tr self)))) /\
  iter (state_of (optimize "QN" J0 tr self)) =
    iter self + Z.of_nat (completed_steps (events_of (optimize "QN" J0 tr self))) /\
  ~ collaborators_succeed.
Proof.
  intros Hx. destruct (opening_quiet self) as (Hoc & Hor & _).
  assert (Hno : ~ collaborators_succeed).
  { intros Hok. pose proof (optimize_QN_returns J0 tr self Hok) as Hr.
    rewrite Hr in Hx. discriminate. }
  revert Hx.
  destruct (optimize_QN_run J0 tr self)
    as [(x' & s1 & t0 & Hf & Hev & _ & ->)
       |(f0 & s1 & t0 & Hf & Hev & _ & [[Hlt ->]|(Hlt & o & s2 & t' & Hrun & ->)])];
    cbn [outcome_of state_of events_of fst snd]; intros Hx; try discriminate;
    destruct (evaluations_quiet _ _ Hev) as (Hq & Hr & _).
  - split; [|split; [|split]]; auto.
    + intros [Hin|Hin]; revert Hin; apply (opening_no_banner _ _ _ _ Hev); auto.
    + left. tally. rewrite Hoc, Hq. reflexivity.
    + tally. rewrite Hor, Hr. cbn. rewrite (only_results_differ_iter _ _ Hf). lia.
  - destruct (loop_raised_shape _ _ _ _ _ _ x Hrun Hx) as [Hn Hb].
    destruct (loop_counter _ _ _ _ _ _ Hrun) as (_ & Hi & _).
    pose proof (loop_no_immediate_banner _ _ _ _ _ _ Hrun) as Hw.
    split; [|split; [|split]]; auto.
    + intros [Hin|Hin]; apply in_app_or in Hin as [Hin|Hin];
        try (revert Hin; apply (opening_no_banner _ _ _ _ Hev); auto; fail);
        cbn in Hin; destruct Hin as [Hin|[Hin|[Hin|Hin]]]; try discriminate; auto.
    + right. tally. rewrite Hoc, Hor, Hq, Hr, Hn. cbn. lia.
    + tally. rewrite Hor, Hr, Hi, (only_results_differ_iter _ _ Hf). cbn. lia.
Qed.

(** ** What a run leaves behind *)

Lemma optimize_settings (method : string) J0 (tr : bool) (self : BEOPT) :
  same_settings self (state_of (optimize method J0 tr self)).
Proof.
  destruct (String.eqb method "QN") eqn:Hm.
  - apply String.eqb_eq in Hm. subst method.
    destruct (optimize_QN_run J0 tr self)
      as [(x & s1 & t0 & Hf & Hev & Hno & ->)
         |(f0 & s1 & t0 & Hf & Hev & _ & [[Hlt ->]|(Hlt & o & s2 & t' & Hrun & ->)])];
      cbn [state_of fst snd].
    + now apply only_results_differ_settings.
    + now apply only_results_differ_settings.
    + eapply same_settings_trans;
        [apply only_results_differ_settings; exact Hf|exact (loop_settings _ _ _ _ _ _ Hrun)].
  - rewrite (optimize_unsupported_eq _ _ _ _ Hm). apply same_settings_refl.
Qed.

Lemma same_settings_fields (s s1 : BEOPT) :
  same_settings s s1 ->
  pot s1 = pot s /\ conv_tol s1 = conv_tol s /\ max_space s1 = max_space s /\
  nproc s1 = nproc s /\ ompnum s1 = ompnum s /\ solver s1 = solver s /\
  only_chem s1 = only_chem s /\ Fobjs s1 = Fobjs s /\
  solver_kwargs s1 = solver_kwargs s /\ scratch_dir s1 = scratch_dir s.
Proof.
  intros Hs. rewrite Hs. repeat split.
Qed.

(** X6.  Whatever the method and however the run ends, [optimize] changes
    no attribute of the object other than [iter], [err] and [Ebe].  In
    particular [self.pot] still holds the initial potential afterwards:
    the potential reached by the driver is not written back. *)
Theorem optimize_keeps_settings (method : string) J0 (tr : bool) (self : BEOPT) :
  same_settings self (state_of (optimize method J0 tr self)) /\
  pot (state_of (optimize method J0 tr self)) = pot self /\
  conv_tol (state_of (optimize method J0 tr self)) = conv_tol self /\
  max_space (state_of (optimize method J0 tr self)) = max_space self /\
  nproc (state_of (optimize method J0 tr self)) = nproc self.
Proof.
  pose proof (optimize_settings method J0 tr self) as Hs.
  destruct (same_settings_fields _ _ Hs) as (Hp & Hc & Hm & Hn & _).
  auto.
Qed.

Lemma loop_verdict (tr : bool) n s o s' t :
  LoopRun tr n s o s' t ->
  PrimFloat.ltb (err s) (conv_tol s) = false ->
  o = Returned tt ->
  (In (Print "CONVERGED") t <-> PrimFloat.ltb (err s') (conv_tol s) = true).
Proof.
  induction 1 as [s|n s s1 t x Hf Hev Hc|n s s1 t Hf Hev Hlt
                  |n s s1 t o s3 t' Hf Hev Hlt Hrun IH]; intros Hs Ho;
    try discriminate;
    try pose proof (same_settings_conv_tol _ _
                      (only_results_differ_settings _ _ Hf)) as Htol.
  - rewrite Hs. cbn. split; [contradiction|discriminate].
  - cbn [err set_iter]. rewrite <- Htol, Hlt. split; [reflexivity|]. intros _.
    cbn. right. right. apply in_or_app. right. cbn. auto 10.
  - cbn [err conv_tol set_iter] in IH. rewrite Htol in IH.
    rewrite <- (IH ltac:(now rewrite <- Htol) Ho).
    split.
    + cbn. intros [Hin|[Hin|Hin]]; try discriminate.
      apply in_app_or in Hin as [Hin|Hin];
        [destruct (evaluation_not_print _ _ _ Hev Hin)|].
      cbn in Hin. destruct Hin as [Hin|[Hin|[Hin|Hin]]]; try discriminate. exact Hin.
    + intros Hin. cbn. right. right. apply in_or_app. right. cbn. auto.
Qed.

(** X7.  After a run that returns, whether it converged can be read from
    the final object: a convergence banner was printed exactly when the
    final [err] is below [conv_tol]. *)
Theorem returned_run_verdict J0 (tr : bool) (self : BEOPT) :
  outcome_of (optimize "QN" J0 tr self) = Returned tt ->
  (banner_printed (events_of (optimize "QN" J0 tr self)) <->
   PrimFloat.ltb (err (state_of (optimize "QN" J0 tr self))) (conv_tol self) = true).
Proof.
  destruct (optimize_QN_run J0 tr self)
    as [(x & s1 & t0 & Hf & Hev & Hno & ->)
       |(f0 & s1 & t0 & Hf & Hev & _ & [[Hlt ->]|(Hlt & o & s2 & t' & Hrun & ->)])];
    cbn [outcome_of state_of events_of fst snd]; intros Ho; try discriminate.
  - rewrite Hlt. split; [reflexivity|]. intros _. right.
    apply in_or_app. right. cbn. auto 10.
  - pose proof (same_settings_conv_tol _ _
                  (only_results_differ_settings _ _ Hf)) as Htol.
    pose proof (loop_no_immediate_banner _ _ _ _ _ _ Hrun) as Hw.
    rewrite <- Htol in Hlt |- *.
    rewrite <- (loop_verdict _ _ _ _ _ _ Hrun Hlt Ho).
    split.
    + intros [Hin|Hin]; apply in_app_or in Hin as [Hin|Hin];
        try (exfalso; revert Hin; apply (opening_no_banner _ _ _ _ Hev); auto; fail);
        cbn in Hin; destruct Hin as [Hin|[Hin|[Hin|Hin]]]; try discriminate;
        [exact Hin|contradiction].
    + intros Hin. left. apply in_or_app. right. cbn. auto.
Qed.

Lemma last_cons_default (a d : float) (l : list float) :
  List.last (a :: l) d = List.last l a.
Proof.
  revert a d. induction l as [|b l IH]; intros a d; [reflexivity|].
  change (List.last (a :: b :: l) d) with (List.last (b :: l) d).
  now rewrite !IH.
Qed.

Lemma loop_reports (tr : bool) n s o s' t :
  LoopRun tr n s o s' t ->
  List.length (reported_errors t) = completed_steps t /\
  (o = Returned tt -> List.last (reported_errors t) (err s) = err s').
Proof.
  induction 1 as [s|n s s1 t x Hf Hev Hc|n s s1 t Hf Hev Hlt
                  |n s s1 t o s3 t' Hf Hev Hlt Hrun IH];
    try destruct (evaluations_quiet _ _ Hev) as (_ & Hr & He & _).
  - split; reflexivity.
  - tally. rewrite He, Hr. split; [reflexivity|discriminate].
  - tally. rewrite He, Hr. split; reflexivity.
  - destruct IH as [IHl IHo]. tally. rewrite He, Hr. cbn [app List.length].
    split; [now rewrite IHl|]. intros Ho. specialize (IHo Ho).
    cbn [err set_iter] in IHo. rewrite <- IHo.
    apply last_cons_default.
Qed.

Lemma optimize_QN_after_initial J0 (tr : bool) (s : BEOPT)
    (e : float) (f0 : list float) (E : float) :
  outcome_of (dispatch (pot s) s) = Returned (e, f0, E) ->
  (PrimFloat.ltb e (conv_tol s) = true /\
   optimize "QN" J0 tr s =
   (Returned tt, set_Ebe E (set_err e s),
    (opening s ++ PrintIter (iter s) :: events_of (dispatch (pot s) s)) ++
    PrintError e :: PrintBlank :: CallFrankQN (pot s) f0 J0 (max_space s) ::
    immediate_banner)) \/
  (PrimFloat.ltb e (conv_tol s) = false /\
   exists o s2 t',
     LoopRun tr (Z.to_nat (max_space s)) (set_Ebe E (set_err e s)) o s2 t' /\
     optimize "QN" J0 tr s =
     (o, s2,
      (opening s ++ PrintIter (iter s) :: events_of (dispatch (pot s) s)) ++
      PrintError e :: PrintBlank :: CallFrankQN (pot s) f0 J0 (max_space s) :: t')).
Proof.
  intros Hd. rewrite optimize_QN_eq, (objfunc_returned _ _ _ _ _ Hd). cbv zeta.
  change (err (set_Ebe E (set_err e s))) with e.
  change (conv_tol (set_Ebe E (set_err e s))) with (conv_tol s).
  change (max_space (set_Ebe E (set_err e s))) with (max_space s).
  change (pot (set_Ebe E (set_err e s))) with (pot s).
  destruct (PrimFloat.ltb e (conv_tol s)) eqn:Hlt.
  - left. split; [reflexivity|]. f_equal.
    rewrite <- !app_assoc. cbn [app]. rewrite <- !app_assoc. reflexivity.
  - right. split; [reflexivity|].
    pose proof (steps_run tr (Z.to_nat (max_space s))
                  (FrankQN (pot s) f0 J0 (max_space s))
                  (set_Ebe E (set_err e s))) as Hrun.
    destruct (steps _ _ tr _) as [[o s2] t']. cbn in Hrun.
    exists o, s2, t'. split; [assumption|]. f_equal.
    rewrite <- !app_assoc. cbn [app]. rewrite <- !app_assoc. reflexivity.
Qed.

(** X8.  A run whose initial evaluation returns prints the scalar error
    once for the initial evaluation and once for every completed step, and
    nowhere else. *)
Theorem one_report_per_completed_step J0 (tr : bool) (self : BEOPT)
    (e : float) (f0 : list float) (E : float) :
  outcome_of (dispatch (pot self) self) = Returned (e, f0, E) ->
  List.length (reported_errors (events_of (optimize "QN" J0 tr self))) =
  S (completed_steps (events_of (optimize "QN" J0 tr self))).
Proof.
  intros Hd. destruct (opening_quiet self) as (_ & Hor & Hoe & _).
  destruct (evaluations_quiet _ _ (dispatch_events (pot self) self))
    as (_ & Hr & He & _).
  destruct (optimize_QN_after_initial J0 tr self e f0 E Hd)
    as [[Hlt ->]|(Hlt & o & s2 & t' & Hrun & ->)];
    cbn [events_of snd]; fold (events_of (dispatch (pot self) self)).
  - tally. rewrite Hor, Hoe, Hr, He. reflexivity.
  - destruct (loop_reports _ _ _ _ _ _ Hrun) as [Hl _].
    tally. rewrite Hor, Hoe, Hr, He. cbn. now rewrite Hl.
Qed.

(** X9.  When a run returns, the final [err] is the last scalar error it
    printed. *)
Theorem final_error_is_last_report J0 (tr : bool) (self : BEOPT) (d : float) :
  outcome_of (optimize "QN" J0 tr self) = Returned tt ->
  reported_errors (events_of (optimize "QN" J0 tr self)) <> [] /\
  List.last (reported_errors (events_of (optimize "QN" J0 tr self))) d =
  err (state_of (optimize "QN" J0 tr self)).
Proof.
  destruct (opening_quiet self) as (_ & _ & Hoe & _).
  destruct (optimize_QN_run J0 tr self)
    as [(x & s1 & t0 & Hf & Hev & Hno & ->)
       |(f0 & s1 & t0 & Hf & Hev & _ & [[Hlt ->]|(Hlt & o & s2 & t' & Hrun & ->)])];
    cbn [outcome_of state_of events_of fst snd]; intros Ho; try discriminate;
    destruct (evaluations_quiet _ _ Hev) as (_ & _ & He & _);
    tally; rewrite Hoe, He; cbn [app].
  - split; [discriminate|reflexivity].
  - destruct (loop_reports _ _ _ _ _ _ Hrun) as [_ Hl]. specialize (Hl Ho).
    split; [discriminate|]. rewrite <- Hl.
    apply last_cons_default.
Qed.

(** ** Edge cases of the budget *)

(** X10.  With [max_space <= 0] the loop body never runs: when the initial
    error is not below [conv_tol] the run still returns normally, after
    building the driver, without a step and without any banner. *)
Theorem optimize_zero_budget J0 (tr : bool) (self : BEOPT)
    (e : float) (f0 : list float) (E : float) :
  max_space self <= 0 ->
  outcome_of (dispatch (pot self) self) = Returned (e, f0, E) ->
  PrimFloat.ltb e (conv_tol self) = false ->
  optimize "QN" J0 tr self =
    (Returned tt, set_Ebe E (set_err e self),
     (opening self ++ PrintIter (iter self) :: events_of (dispatch (pot self) self)) ++
     [PrintError e; PrintBlank; CallFrankQN (pot self) f0 J0 (max_space self)]) /\
  next_step_calls (events_of (optimize "QN" J0 tr self)) = 0%nat /\
  ~ banner_printed (events_of (optimize "QN" J0 tr self)).
Proof.
  intros Hms Hd Hlt.
  destruct (opening_quiet self) as (Hoc & _).
  pose proof (dispatch_events (pot self) self) as Hev.
  destruct (evaluations_quiet _ _ Hev) as (Hq & _).
  destruct (optimize_QN_after_initial J0 tr self e f0 E Hd)
    as [[Hlt' _]|(_ & o & s2 & t' & Hrun & ->)]; [congruence|].
  replace (Z.to_nat (max_space self)) with 0%nat in Hrun by lia.
  inversion Hrun; subst. cbn [events_of snd].
  split; [reflexivity|]. split.
  - tally. rewrite Hoc, Hq. reflexivity.
  - intros [Hin|Hin]; apply in_app_or in Hin as [Hin|Hin];
      try (revert Hin; apply (opening_no_banner _ _ _ _ Hev); auto; fail);
      cbn in Hin; intuition discriminate.
Qed.

(** ** What the driver is given *)

Lemma step_flags_app (t1 t2 : list Event) :
  step_flags (t1 ++ t2) = step_flags t1 ++ step_flags t2.
Proof.
  induction t1 as [|ev t1 IH]; [reflexivity|].
  destruct ev; cbn [app step_flags]; now rewrite IH.
Qed.

Lemma driver_builds_app (t1 t2 : list Event) :
  driver_builds (t1 ++ t2) = driver_builds t1 ++ driver_builds t2.
Proof.
  induction t1 as [|ev t1 IH]; [reflexivity|].
  destruct ev; cbn [app driver_builds]; now rewrite IH.
Qed.

Lemma evaluations_no_driver (i : Z) (t : list Event) :
  Forall (evaluation_at i) t -> step_flags t = [] /\ driver_builds t = [].
Proof.
  induction 1 as [|ev t Hev _ IH]; [split; reflexivity|].
  destruct ev; cbn in Hev; try contradiction; exact IH.
Qed.

Lemma opening_no_driver (s : BEOPT) :
  step_flags (opening s) = [] /\ driver_builds (opening s) = [].
Proof. unfold opening. destruct (only_chem s); split; reflexivity. Qed.

Lemma loop_driver (tr : bool) n s o s' t :
  LoopRun tr n s o s' t ->
  step_flags t = List.repeat tr (next_step_calls t) /\ driver_builds t = [].
Proof.
  induction 1 as [s|n s s1 t x Hf Hev Hc|n s s1 t Hf Hev Hlt
                  |n s s1 t o s3 t' Hf Hev Hlt Hrun IH];
    try destruct (evaluations_quiet _ _ Hev) as (Hq & _);
    try destruct (evaluations_no_driver _ _ Hev) as (Hsf & Hdb).
  - split; reflexivity.
  - tally. cbn [step_flags driver_builds]. rewrite Hq, Hsf, Hdb. split; reflexivity.
  - tally. cbn [step_flags driver_builds].
    rewrite step_flags_app, driver_builds_app, Hq, Hsf, Hdb. split; reflexivity.
  - destruct IH as [IHs IHd]. tally. cbn [step_flags driver_builds].
    rewrite step_flags_app, driver_builds_app, Hq, Hsf, Hdb.
    cbn [app step_flags driver_builds Nat.add List.repeat].
    rewrite IHs, IHd. split; reflexivity.
Qed.


(** ** One configuration for all the evaluations of a run *)

Lemma set_iter_same (s : BEOPT) : set_iter (iter s) s = s.
Proof. by_record. Qed.

Lemma serial_call_settings (xk : list float) (i : Z) (s s1 : BEOPT) :
  same_settings s s1 -> serial_call xk (set_iter i s1) = serial_call xk (set_iter i s).
Proof. unfold serial_call. by_record. Qed.

Lemma parallel_call_settings (xk : list float) (i : Z) (s s1 : BEOPT) :
  same_settings s s1 -> parallel_call xk (set_iter i s1) = parallel_call xk (set_iter i s).
Proof. unfold parallel_call. by_record. Qed.

Lemma nproc_settings (s s1 : BEOPT) : same_settings s s1 -> nproc s1 = nproc s.
Proof. by_record. Qed.

Lemma evaluation_event_settings (xk : list float) (i : Z) (s s1 : BEOPT) :
  same_settings s s1 -> evaluation_event s1 xk i = evaluation_event s xk i.
Proof.
  intros Hs. unfold evaluation_event.
  now rewrite (nproc_settings _ _ Hs), (serial_call_settings _ _ _ _ Hs),
    (parallel_call_settings _ _ _ _ Hs).
Qed.

Lemma from_settings_transfer (s s1 : BEOPT) (t : list Event) :
  same_settings s s1 -> Forall (from_settings s1) t -> Forall (from_settings s) t.
Proof.
  intros Hs. apply List.Forall_impl. intros ev Hev Hise.
  destruct (Hev Hise) as (xk & i & ->). exists xk, i.
  now apply evaluation_event_settings.
Qed.

Lemma from_settings_other (s : BEOPT) (ev : Event) :
  is_evaluation ev = false -> from_settings s ev.
Proof. intros Hne Hise. rewrite Hne in Hise. discriminate. Qed.

Lemma dispatch_event_form (xk : list float) (s : BEOPT) :
  events_of (dispatch xk s) = [evaluation_event s xk (iter s)].
Proof.
  unfold dispatch, evaluation_event. rewrite set_iter_same.
  destruct (nproc s =? 1); reflexivity.
Qed.

Lemma objfunc_config (xk : list float) (s : BEOPT) :
  Forall (from_settings s) (events_of (objfunc xk s)).
Proof.
  rewrite objfunc_eq.
  assert (Hd : Forall (from_settings s) (events_of (dispatch xk s))).
  { rewrite dispatch_event_form. constructor; [|constructor]. intros _. eauto. }
  destruct (outcome_of (dispatch xk s)) as [[[e v] E]|x]; exact Hd.
Qed.

Lemma run_config {A : Type} (p : Prog A) (s : BEOPT) :
  Forall (from_settings s) (events_of (run p s)).
Proof.
  revert s. induction p as [a|e|xk k IH]; intros s; cbn [run].
  - constructor.
  - constructor.
  - unfold bind. pose proof (objfunc_config xk s) as Hc.
    destruct (objfunc_frame xk s) as [Hf _].
    destruct (objfunc xk s) as [[[v|x] s1] t1]; cbn in Hc, Hf; [|exact Hc].
    specialize (IH v s1). destruct (run (k v) s1) as [[o s2] t2]. cbn in IH |- *.
    apply Forall_app. split; [exact Hc|].
    eapply from_settings_transfer; [|exact IH].
    now apply only_results_differ_settings.
Qed.

Ltac split_trace :=
  cbn [events_of snd]; unfold converged_banner, immediate_banner;
  repeat first [ assumption
               | apply Forall_nil_2
               | apply Forall_cons; split
               | apply Forall_app; split ];
  try (now apply from_settings_other).

Lemma steps_config (tr : bool) (n : nat) (q : QN) (s : BEOPT) :
  Forall (from_settings s) (events_of (steps n q tr s)).
Proof.
  revert q s. induction n as [|n IH]; intros q s.
  - constructor.
  - rewrite steps_S, call_next_step_eq.
    pose proof (run_config (next_step q tr) s) as Hc.
    destruct (run_frame (next_step q tr) s) as [Hf _].
    destruct (run (next_step q tr) s) as [[[q'|x] s1] t]; cbn in Hc, Hf.
    + cbv zeta.
      assert (Hs : same_settings s (set_iter (iter s1 + 1) s1))
        by now apply same_settings_set_iter, only_results_differ_settings.
      destruct (PrimFloat.ltb _ _).
      * split_trace.
      * specialize (IH q' (set_iter (iter s1 + 1) s1)).
        destruct (steps n q' tr _) as [[o s3] t']. cbn [events_of snd] in IH.
        split_trace. eapply from_settings_transfer; eassumption.
    + split_trace.
Qed.

Lemma opening_config (s : BEOPT) : Forall (from_settings s) (opening s).
Proof.
  unfold opening. destruct (only_chem s);
    repeat (constructor; [now apply from_settings_other|]); constructor.
Qed.

Lemma optimize_config (method : string) J0 (tr : bool) (s : BEOPT) :
  Forall (from_settings s) (events_of (optimize method J0 tr s)).
Proof.
  destruct (String.eqb method "QN") eqn:Hm.
  - apply String.eqb_eq in Hm. subst method. rewrite optimize_QN_eq.
    generalize (opening_config s). generalize (opening s). intros op Ho.
    pose proof (objfunc_config (pot s) s) as Hc.
    destruct (objfunc_frame (pot s) s) as [Hf _].
    destruct (objfunc (pot s) s) as [[[f0|x] s1] t0]; cbn in Hc, Hf.
    + cbv zeta. destruct (PrimFloat.ltb _ _).
      * split_trace.
      * pose proof (steps_config tr (Z.to_nat (max_space s1))
                      (FrankQN (pot s1) f0 J0 (max_space s1)) s1) as Hst.
        destruct (steps _ _ tr s1) as [[o s2] t']. cbn [events_of snd] in Hst.
        split_trace. eapply from_settings_transfer; [|exact Hst].
        now apply only_results_differ_settings.
    + split_trace.
  - rewrite (optimize_unsupported_eq _ _ _ _ Hm). unfold unsupported_message.
    generalize (opening_config s). generalize (opening s). intros op Ho.
    split_trace.
Qed.

(** X12.  All the evaluations of a run are made with one configuration and
    one routine: every evaluation call recorded during [optimize] is the
    call an instance with the attributes of [self] makes for some potential
    and counter value, so only the potential and [be_iter] vary; with
    [nproc = 1] [be_func_parallel] is never called, otherwise [be_func]
    never is. *)
Theorem evaluations_share_configuration (method : string) J0 (tr : bool)
    (self : BEOPT) :
  (forall ev,
     In ev (events_of (optimize method J0 tr self)) ->
     is_evaluation ev = true ->
     exists xk i, ev = evaluation_event self xk i) /\
  (forall a,
     In (CallBeFunc a) (events_of (optimize method J0 tr self)) ->
     nproc self = 1 /\ sc_nproc a = ompnum self /\
     sc_eeval a = true /\ sc_return_vec a = true /\
     sc_Fobjs a = Fobjs self /\ sc_solver a = solver self /\
     sc_hci_pt a = hci_pt self /\ sc_scratch_dir a = scratch_dir self /\
     sc_kwargs a = solver_kwargs self) /\
  (forall a,
     In (CallBeFuncParallel a) (events_of (optimize method J0 tr self)) ->
     nproc self <> 1 /\ pc_nproc a = nproc self /\ pc_ompnum a = ompnum self /\
     pc_eeval a = true /\ pc_return_vec a = true /\
     pc_Fobjs a = Fobjs self /\ pc_solver a = solver self /\
     pc_scratch_dir a = scratch_dir self /\ pc_kwargs a = solver_kwargs self).
Proof.
  pose proof (optimize_config method J0 tr self) as Hall.
  rewrite List.Forall_forall in Hall.
  split; [|split].
  - intros ev Hin Hise. exact (Hall ev Hin Hise).
  - intros a Hin. destruct (Hall _ Hin eq_refl) as (xk & i & Heq).
    unfold evaluation_event in Heq.
    destruct (Z.eqb_spec (nproc self) 1) as [Hn|Hn]; [|discriminate].
    injection Heq as ->. repeat split; auto.
  - intros a Hin. destruct (Hall _ Hin eq_refl) as (xk & i & Heq).
    unfold evaluation_event in Heq.
    destruct (Z.eqb_spec (nproc self) 1) as [Hn|Hn]; [discriminate|].
    injection Heq as ->. repeat split; auto.
Qed.

(** ** Running [optimize] again on the same object *)

Lemma optimize_counter J0 (tr : bool) (s : BEOPT) :
  iter (state_of (optimize "QN" J0 tr s)) =
  iter s + Z.of_nat (completed_steps (events_of (optimize "QN" J0 tr s))).
Proof.
  destruct (opening_quiet s) as (_ & Hor & _).
  destruct (optimize_QN_run J0 tr s)
    as [(x & s1 & t0 & Hf & Hev & Hno & ->)
       |(f0 & s1 & t0 & Hf & Hev & _ & [[Hlt ->]|(Hlt & o & s2 & t' & Hrun & ->)])];
    destruct (evaluations_quiet _ _ Hev) as (_ & Hr & _);
    cbn [state_of events_of fst snd]; tally; rewrite Hor, Hr;
    rewrite <- (only_results_differ_iter _ _ Hf).
  - cbn. lia.
  - cbn. lia.
  - destruct (loop_counter _ _ _ _ _ _ Hrun) as (_ & -> & _). cbn. lia.
Qed.

Lemma opening_settings (s s1 : BEOPT) : same_settings s s1 -> opening s1 = opening s.
Proof. unfold opening. by_record. Qed.

(** X13.  A second [optimize] on the same object does not resume the
    first: it starts again from the initial potential [self.pot], prints
    the same opening lines and evaluates [self.pot] first; only the
    iteration counter carries over, so that after both runs it has grown by
    the steps completed in the two runs together. *)
Theorem optimize_twice J0 J0' (tr tr' : bool) (self : BEOPT) :
  let first := optimize "QN" J0 tr self in
  let second := optimize "QN" J0' tr' (state_of first) in
  pot (state_of first) = pot self /\
  iter (state_of second) =
    iter self + Z.of_nat (completed_steps (events_of first) +
                          completed_steps (events_of second)) /\
  exists rest,
    events_of second =
    opening self ++
    PrintIter (iter self + Z.of_nat (completed_steps (events_of first))) ::
    evaluation_event self (pot self)
      (iter self + Z.of_nat (completed_steps (events_of first))) :: rest.
Proof.
  intros first second.
  pose proof (optimize_settings "QN" J0 tr self) as Hs. fold first in Hs.
  pose proof (optimize_counter J0 tr self) as Hi. fold first in Hi.
  pose proof (optimize_counter J0' tr' (state_of first)) as Hi2. fold second in Hi2.
  destruct (same_settings_fields _ _ Hs) as (Hp & _).
  split; [exact Hp|]. split; [rewrite Hi2, Hi; lia|].
  unfold second. rewrite optimize_QN_eq, objfunc_eq.
  rewrite (opening_settings _ _ Hs), Hp, dispatch_event_form.
  rewrite (evaluation_event_settings _ _ _ _ Hs), Hi.
  destruct (outcome_of (dispatch (pot self) (state_of first))) as [[[e v] E]|x].
  - cbv zeta. destruct (PrimFloat.ltb _ _).
    + cbn [events_of snd]. rewrite <- app_assoc. cbn [app]. eauto.
    + destruct (steps _ _ _ _) as [[o s2] t']. cbn [events_of snd].
      rewrite <- app_assoc. cbn [app]. eauto.
  - cbn [events_of snd]. eauto.
Qed.

(** ** Not-a-number *)

Lemma ltb_nan_r (x : float) : PrimFloat.ltb x PrimFloat.nan = false.
Proof.
  rewrite FloatAxioms.ltb_spec.
  change (FloatOps.Prim2SF PrimFloat.nan) with SpecFloat.S754_nan.
  unfold SpecFloat.SFltb, SpecFloat.SFcompare.
  destruct (FloatOps.Prim2SF x) as [| | |]; try reflexivity.
  all: destruct s; reflexivity.
Qed.


Lemma ltb_nan_l (x : float) : PrimFloat.ltb PrimFloat.nan x = false.
Proof.
  rewrite FloatAxioms.ltb_spec.
  change (FloatOps.Prim2SF PrimFloat.nan) with SpecFloat.S754_nan.
  reflexivity.
Qed.

Lemma objfunc_nan (xk : list float) (s : BEOPT) :
  errors_are_nan ->
  (err s = PrimFloat.nan -> err (state_of (objfunc xk s)) = PrimFloat.nan) /\
  (forall v, outcome_of (objfunc xk s) = Returned v ->
             err (state_of (objfunc xk s)) = PrimFloat.nan).
Proof.
  intros [Hs Hp]. rewrite objfunc_eq. unfold dispatch, outcome_of.
  destruct (nproc s =? 1); cbn [fst snd].
  - destruct (be_func (serial_call xk s)) as [[[e v] E]|x] eqn:Hb; cbn.
    + rewrite (Hs _ _ _ _ Hb). auto.
    + split; [auto|discriminate].
  - destruct (be_func_parallel (parallel_call xk s)) as [[[e v] E]|x] eqn:Hb; cbn.
    + rewrite (Hp _ _ _ _ Hb). auto.
    + split; [auto|discriminate].
Qed.

Lemma run_nan {A : Type} (p : Prog A) (s : BEOPT) :
  errors_are_nan -> err s = PrimFloat.nan ->
  err (state_of (run p s)) = PrimFloat.nan.
Proof.
  intros Hnan. revert s. induction p as [a|e|xk k IH]; intros s Hs; cbn [run].
  - exact Hs.
  - exact Hs.
  - unfold bind. destruct (objfunc_nan xk s Hnan) as [Hk _]. specialize (Hk Hs).
    destruct (objfunc xk s) as [[[v|x] s1] t1]; cbn in Hk; [|exact Hk].
    specialize (IH v s1 Hk). destruct (run (k v) s1) as [[o s2] t2]. exact IH.
Qed.

Lemma steps_nan (tr : bool) (n : nat) (q : QN) (s : BEOPT) :
  errors_are_nan -> err s = PrimFloat.nan ->
  Forall (fun e => e = PrimFloat.nan) (reported_errors (events_of (steps n q tr s))).
Proof.
  intros Hnan. revert q s. induction n as [|n IH]; intros q s Hs.
  - constructor.
  - rewrite steps_S, call_next_step_eq.
    pose proof (run_nan (next_step q tr) s Hnan Hs) as Hr.
    destruct (run_frame (next_step q tr) s) as [_ Hev].
    destruct (run (next_step q tr) s) as [[[q'|x] s1] t]; cbn in Hr, Hev;
      destruct (evaluations_quiet _ _ Hev) as (_ & _ & He & _).
    + cbv zeta. cbn [err set_iter]. destruct (PrimFloat.ltb _ _).
      * cbn [events_of snd]. tally. rewrite He. cbn. repeat constructor. exact Hr.
      * specialize (IH q' (set_iter (iter s1 + 1) s1) Hr).
        destruct (steps n q' tr _) as [[o s3] t']. cbn [events_of snd] in IH |- *.
        tally. rewrite He. cbn [app]. constructor; assumption.
    + cbn [events_of snd]. tally. rewrite He. constructor.
Qed.


End DriverMore.

(** * Further properties of scratch directories *)

Section ScratchMore.
Import ManageScratch ScratchFiles.

(** X16.  Acquiring and releasing leaves no trace: under a path that does
    not exist, [with WorkDir(p)] creates the directory for the block (it
    exists inside, under the path asked for) and, for a block that leaves
    the file system alone, gives back the file system it started from. *)
Theorem with_WorkDir_round_trip {A : Type} (p : string) (a : A) (fs : FS) :
  fs !! p = None ->
  WorkDir__init__ p fs = (Returned (mkWorkDir p), <[p := ∅]> fs) /\
  path_exists p (<[p := ∅]> fs) = true /\
  with_WorkDir p (fun _ f => (Returned a, f)) fs = (Returned a, fs) /\
  fst (test_creation_user_defined p fs) = Returned tt.
Proof.
  intros Hp.
  assert (Hinit : WorkDir__init__ p fs = (Returned (mkWorkDir p), <[p := ∅]> fs)).
  { unfold WorkDir__init__. now rewrite Hp. }
  assert (Hex : path_exists p (<[p := ∅]> fs) = true).
  { apply path_exists_true. rewrite lookup_insert_eq. eauto. }
  assert (Hdel : delete p (<[p := ∅]> fs) = fs) by now apply delete_insert_id.
  split; [exact Hinit|]. split; [exact Hex|]. split.
  - unfold with_WorkDir. rewrite Hinit.
    rewrite cleanup_present by (cbn; rewrite lookup_insert_eq; eauto).
    cbn [path]. now rewrite Hdel.
  - unfold test_creation_user_defined, io_bind, with_WorkDir, assert.
    rewrite Hinit, Hex. cbn [path]. rewrite String.eqb_refl.
    rewrite cleanup_present by (cbn; rewrite lookup_insert_eq; eauto).
    cbn [path]. rewrite Hdel.
    rewrite (proj2 (path_exists_false _ _) Hp). reflexivity.
Qed.

(** X17.  A file written in a scratch directory reads back unchanged, and
    releasing the directory removes it together with the file: under a path
    that does not exist, writing [text] to a file inside [with WorkDir(p)]
    and reading it back returns [text], and the file system afterwards is
    the one before. *)
Theorem scratch_file_round_trip (p name text : string) (fs : FS) :
  fs !! p = None ->
  with_WorkDir p (fun scratch =>
    io_bind (write_text (path scratch) name text) (fun _ =>
    read_text (path scratch) name)) fs = (Returned text, fs) /\
  fst (test_dunder_methods p fs) = Returned tt.
Proof.
  intros Hp.
  assert (Hinit : WorkDir__init__ p fs = (Returned (mkWorkDir p), <[p := ∅]> fs)).
  { unfold WorkDir__init__. now rewrite Hp. }
  assert (Hround : forall nm tx,
    io_bind (write_text p nm tx) (fun _ => read_text p nm) (<[p := ∅]> fs) =
    (Returned tx, <[p := <[nm := tx]> ∅]> (<[p := ∅]> fs))).
  { intros nm tx. unfold io_bind, write_text, read_text.
    rewrite lookup_insert_eq. rewrite lookup_insert_eq. rewrite lookup_insert_eq.
    reflexivity. }
  assert (Hdel : forall files : gmap string string,
    delete p (<[p := files]> (<[p := ∅]> fs)) = fs).
  { intros files. rewrite insert_insert_eq. now apply delete_insert_id. }
  split.
  - unfold with_WorkDir. rewrite Hinit. cbn [path]. rewrite Hround.
    rewrite cleanup_present by (cbn; rewrite lookup_insert_eq; eauto).
    cbn [path]. now rewrite Hdel.
  - unfold test_dunder_methods, with_WorkDir. rewrite Hinit. cbn [path].
    unfold io_bind at 1. unfold write_text at 1. rewrite lookup_insert_eq.
    unfold io_bind at 1. unfold read_text at 1.
    rewrite lookup_insert_eq, lookup_insert_eq.
    unfold assert. cbn [String.eqb Ascii.eqb Bool.eqb].
    rewrite cleanup_present by (cbn; rewrite lookup_insert_eq; eauto).
    reflexivity.
Qed.

(** X18.  A directory that already holds a file is refused and kept:
    [WorkDir(p)] raises [ValueError] without touching the file system, so
    the block of a [with] statement is not run and the directory and its
    files are still there afterwards. *)
Theorem WorkDir_refuses_non_empty {A : Type} (p : string)
    (body : WorkDir -> IO A) (fs : FS) (files : gmap string string) :
  fs !! p = Some files -> files <> ∅ ->
  WorkDir__init__ p fs = (Raised (PyError "ValueError"), fs) /\
  with_WorkDir p body fs = (Raised (PyError "ValueError"), fs) /\
  raises "ValueError" (with_WorkDir p body) fs = (Returned tt, fs) /\
  path_exists p fs = true.
Proof.
  intros Hp Hne.
  assert (Hinit : WorkDir__init__ p fs = (Raised (PyError "ValueError"), fs)).
  { unfold WorkDir__init__. rewrite Hp. destruct (decide (files = ∅)); [contradiction|reflexivity]. }
  assert (Hwith : with_WorkDir p body fs = (Raised (PyError "ValueError"), fs)).
  { unfold with_WorkDir. now rewrite Hinit. }
  split; [exact Hinit|]. split; [exact Hwith|]. split.
  - unfold raises. rewrite Hwith. reflexivity.
  - apply path_exists_true. rewrite Hp. eauto.
Qed.

End ScratchMore.

(** ** The further properties at work *)

Lemma blind_succeeds : collaborators_succeed (EX := Fragile.blind).
Proof.
  repeat split.
  - intros a. eexists. reflexivity.
  - intros a. eexists. reflexivity.
Qed.

Lemma blind_errors_are_nan : errors_are_nan (EX := Fragile.blind).
Proof.
  split; intros a e v E Heq; cbn in Heq;
    apply (f_equal (fun o => match o with
                             | Returned (x, _, _) => x
                             | Raised _ => PrimFloat.nan
                             end)) in Heq; cbn in Heq; now subst e.
Qed.

(** X1, witness: the fragile routine raises at potential 8. *)
Lemma objfunc_raises_unchanged_witness :
  outcome_of (objfunc (EX := Fragile.doubling) [8%float] (instance [1%float] 1 10 0.2%float))
    = Raised (PyError "RuntimeError") /\
  state_of (objfunc (EX := Fragile.doubling) [8%float] (instance [1%float] 1 10 0.2%float))
    = instance [1%float] 1 10 0.2%float.
Proof.
  destruct (objfunc_raises_unchanged (EX := Fragile.doubling) [8%float]
              (instance [1%float] 1 10 0.2%float) (PyError "RuntimeError"))
    as (Ho & Hs & _); [reflexivity|].
  split; assumption.
Defined.

(** X2, witness: an evaluation at 0.5 after one at 0.25. *)
Lemma objfunc_last_wins_witness :
  err (state_of (objfunc [0.5%float]
         (state_of (objfunc [0.25%float] (instance [1%float] 1 10 0.2%float)))))
  = 0.5%float.
Proof.
  destruct (objfunc_last_wins [0.25%float] [0.5%float]
              (instance [1%float] 1 10 0.2%float) 0.25%float [0.25%float] 0%float)
    as (_ & _ & Hst); [reflexivity|].
  destruct (Hst 0.5%float [0.5%float] 0%float eq_refl) as [-> _]. reflexivity.
Defined.

(** X3, witness: the initial potential 8 makes the fragile routine raise. *)
Lemma optimize_initial_failure_witness :
  outcome_of (optimize (EX := Fragile.doubling) "QN" None false
                (instance [8%float] 1 10 0.2%float))
    = Raised (PyError "RuntimeError") /\
  next_step_calls (events_of (optimize (EX := Fragile.doubling) "QN" None false
                                (instance [8%float] 1 10 0.2%float))) = 0%nat.
Proof.
  destruct (optimize_initial_failure (EX := Fragile.doubling) None false
              (instance [8%float] 1 10 0.2%float) (PyError "RuntimeError"))
    as (Heq & Hn & _); [reflexivity|].
  split; [now rewrite Heq|exact Hn].
Defined.


(** X5, witness: from potential 1 the doubling driver reaches 8 in its
    third step, where the fragile routine raises. *)
Lemma optimize_raised_shape_witness :
  next_step_calls (events_of (optimize (EX := Fragile.doubling) "QN" None false
                                (instance [1%float] 1 10 0.2%float))) = 3%nat /\
  iter (state_of (optimize (EX := Fragile.doubling) "QN" None false
                    (instance [1%float] 1 10 0.2%float))) = 2.
Proof.
  destruct (optimize_raised_shape (EX := Fragile.doubling) None false
              (instance [1%float] 1 10 0.2%float) (PyError "RuntimeError"))
    as (_ & Hn & Hi & _); [vm_compute; reflexivity|].
  split.
  - destruct Hn as [Hn|Hn]; [vm_compute in Hn; discriminate|].
    rewrite Hn. vm_compute. reflexivity.
  - rewrite Hi. vm_compute. reflexivity.
Defined.

(** X7, witness: the run from potential 1 converges at 0.125. *)
Lemma returned_run_verdict_witness :
  banner_printed (events_of (optimize "QN" None false (instance [1%float] 1 10 0.2%float))).
Proof.
  apply (returned_run_verdict None false (instance [1%float] 1 10 0.2%float)).
  - vm_compute. reflexivity.
  - vm_compute. reflexivity.
Defined.

(** X8, witness: three completed steps, four reports. *)
Lemma one_report_per_completed_step_witness :
  List.length (reported_errors
    (events_of (optimize "QN" None false (instance [1%float] 1 10 0.2%float)))) = 4%nat.
Proof.
  rewrite (one_report_per_completed_step None false (instance [1%float] 1 10 0.2%float)
             1%float [1%float] 0%float); [|reflexivity].
  vm_compute. reflexivity.
Defined.

(** X9, witness. *)
Lemma final_error_is_last_report_witness :
  List.last (reported_errors
    (events_of (optimize "QN" None false (instance [1%float] 1 10 0.2%float)))) 0%float
  = 0.125%float.
Proof.
  destruct (final_error_is_last_report None false (instance [1%float] 1 10 0.2%float)
              0%float) as [_ Hl]; [vm_compute; reflexivity|].
  rewrite Hl. vm_compute. reflexivity.
Defined.

(** X10, witness: [max_space = 0], initial error 1 against tolerance 0.2. *)
Lemma optimize_zero_budget_witness :
  outcome_of (optimize "QN" None false (instance [1%float] 1 0 0.2%float)) = Returned tt /\
  next_step_calls
    (events_of (optimize "QN" None false (instance [1%float] 1 0 0.2%float))) = 0%nat.
Proof.
  destruct (optimize_zero_budget None false (instance [1%float] 1 0 0.2%float)
              1%float [1%float] 0%float) as (Heq & Hn & _);
    [cbn; lia|reflexivity|reflexivity|].
  split; [now rewrite Heq|exact Hn].
Defined.


(** X12, witness: the evaluation of the first step, made at potential 0.5
    with the counter at 0. *)
Lemma evaluations_share_configuration_witness :
  sc_nproc (serial_call [0.5%float] (instance [1%float] 1 10 0.2%float)) = 4 /\
  sc_solver (serial_call [0.5%float] (instance [1%float] 1 10 0.2%float)) = "MP2".
Proof.
  destruct (evaluations_share_configuration "QN" None false
              (instance [1%float] 1 10 0.2%float)) as (_ & Hs & _).
  destruct (Hs (serial_call [0.5%float] (instance [1%float] 1 10 0.2%float)))
    as (_ & Hn & _ & _ & _ & Hsol & _).
  - vm_compute. do 12 right. left. reflexivity.
  - split; assumption.
Defined.



(** X16, witness: an empty file system. *)
Lemma with_WorkDir_round_trip_witness :
  ManageScratch.with_WorkDir "/scratch/run" (fun _ f => (Returned tt, f))
    (∅ : gmap string (gmap string string))
  = (Returned tt, ∅).
Proof.
  destruct (with_WorkDir_round_trip "/scratch/run" tt
              (∅ : gmap string (gmap string string))) as (_ & _ & Hw & _);
    [apply lookup_empty|exact Hw].
Defined.

(** X17, witness. *)
Lemma scratch_file_round_trip_witness :
  fst (ScratchFiles.test_dunder_methods "/scratch"
         (∅ : gmap string (gmap string string))) = Returned tt.
Proof.
  destruct (scratch_file_round_trip "/scratch" "test.txt" "hello world"
              (∅ : gmap string (gmap string string))) as [_ Ht];
    [apply lookup_empty|exact Ht].
Defined.

(** X18, witness: a directory that holds one file. *)
Lemma WorkDir_refuses_non_empty_witness :
  ManageScratch.with_WorkDir "/scratch/run" (fun _ f => (Returned tt, f))
    ({["/scratch/run" := {["testfile" := ""]}]} : gmap string (gmap string string))
  = (Raised (PyError "ValueError"),
     ({["/scratch/run" := {["testfile" := ""]}]} : gmap string (gmap string string))).
Proof.
  destruct (WorkDir_refuses_non_empty "/scratch/run" (fun _ f => (Returned tt, f))
              ({["/scratch/run" := {["testfile" := ""]}]} : gmap string (gmap string string))
              ({["testfile" := ""]} : gmap string string)) as (_ & Hw & _).
  - apply lookup_singleton_eq.
  - intros Hempty. apply (f_equal (fun m => m !! "testfile")) in Hempty.
    rewrite lookup_singleton_eq, lookup_empty in Hempty. discriminate.
  - exact Hw.
Defined.
